(** * Verification of the [proc-mounts] parsers (src/mounts.rs, src/swaps.rs)

    A shallow embedding of the parsers of [/proc/mounts] and [/proc/swaps]
    lines and of the queries over the parsed tables.

    Byte strings ([&str], [OsString], [PathBuf], [&[u8]]) are [string]s of the
    Standard Library: a list of 8-bit [ascii] characters, one per byte.
    [io::Result] is [result] below; the [?] operator is [let*]. *)

From Stdlib Require Import String Ascii List ZArith Lia Bool.
Import ListNotations.
Open Scope string_scope.

(** ** [std::io::Error] and [std::io::Result] *)

Inductive ErrorKind := Other | InvalidData.

Inductive Error :=
  (** [Error::new(kind, "message")] *)
  | Custom (kind : ErrorKind) (msg : string)
  (** [Error::new(kind, err)] wrapping the [ParseIntError] of [from_str_radix] *)
  | ParseIntError (kind : ErrorKind).

Inductive result (A : Type) :=
  | Ok (a : A)
  | Err (e : Error).
Arguments Ok {A} a.
Arguments Err {A} e.

Definition bind {A B} (r : result A) (k : A -> result B) : result B :=
  match r with
  | Ok a => k a
  | Err e => Err e
  end.

Notation "'let*' x := r 'in' k" := (bind r (fun x => k))
  (at level 200, x name, r at level 100, k at level 200).

(** [Option::ok_or_else] *)
Definition ok_or {A} (o : option A) (e : Error) : result A :=
  match o with
  | Some a => Ok a
  | None => Err e
  end.

Definition is_ok {A} (r : result A) : bool :=
  match r with Ok _ => true | Err _ => false end.

(** ** Byte helpers *)

Definition byte (n : nat) : ascii := ascii_of_nat n.
Arguments byte : simpl never.
Definition backslash : ascii := "\"%char.
Definition space : ascii := " "%char.
Definition slash : ascii := "/"%char.
Definition comma : ascii := ","%char.

(** [u32::from_str_radix(&(b as char).to_string(), 8)]: the one-character
    string of [b] is a base-8 number exactly when [b] is one of ['0'..'7']
    (a lone ['+'] or ['-'] is refused, and a byte >= 128 becomes a
    two-byte character, which is no digit). *)
Definition octal_digit (b : ascii) : option nat :=
  let n := nat_of_ascii b in
  if Nat.leb 48 n && Nat.leb n 55 then Some (n - 48) else None.

(** ** [parse_value]: the escape decoder (identical in both files)

    The [for _i in 0..3] loop is unrolled: each of the three iterations takes
    the next byte ([Custom Other "truncated octal code"] when there is none)
    and adds its octal digit ([ParseIntError Other] when it is none).
    [code] is a [u32]; [code as u8] keeps its low 8 bits. *)

Definition truncated : Error := Custom Other "truncated octal code".

Fixpoint parse_value (value : string) : result string :=
  match value with
  | EmptyString => Ok EmptyString
  | String b rest =>
    if Ascii.eqb b backslash then
      match rest with
      | EmptyString => Err truncated
      | String d1 rest1 =>
        match octal_digit d1 with
        | None => Err (ParseIntError Other)
        | Some v1 =>
          match rest1 with
          | EmptyString => Err truncated
          | String d2 rest2 =>
            match octal_digit d2 with
            | None => Err (ParseIntError Other)
            | Some v2 =>
              match rest2 with
              | EmptyString => Err truncated
              | String d3 rest3 =>
                match octal_digit d3 with
                | None => Err (ParseIntError Other)
                | Some v3 =>
                  let code := ((0 * 8 + v1) * 8 + v2) * 8 + v3 in
                  let* ret := parse_value rest3 in
                  Ok (String (byte (code mod 256)) ret)
                end
              end
            end
          end
        end
      end
    else
      let* ret := parse_value rest in
      Ok (String b ret)
  end.

(** ** [str::split(c)]: the pieces between occurrences of [c]; always at
    least one piece, empty pieces kept. *)

Fixpoint split_on (sep : ascii) (s : string) : list string :=
  match s with
  | EmptyString => [EmptyString]
  | String c rest =>
    if Ascii.eqb c sep then EmptyString :: split_on sep rest
    else match split_on sep rest with
         | [] => [String c EmptyString]
         | w :: ws => String c w :: ws
         end
  end.

(** ** [<iN/uN as FromStr>::from_str] (radix 10)

    An empty string, a lone sign, a non-digit, a ['-'] on an unsigned type or
    a value out of [min..max] is an error.  The source checks overflow at each
    step of [result = result * 10 +/- digit]; as the partial values grow in
    magnitude, that is the same as checking the final value. *)

Definition dec_digit (c : ascii) : option Z :=
  let n := nat_of_ascii c in
  if Nat.leb 48 n && Nat.leb n 57 then Some (Z.of_nat (n - 48)) else None.

Fixpoint dec_digits (acc : Z) (s : string) : option Z :=
  match s with
  | EmptyString => Some acc
  | String c rest =>
    match dec_digit c with
    | Some d => dec_digits (acc * 10 + d) rest
    | None => None
    end
  end.

Definition in_range (min max v : Z) : option Z :=
  if (min <=? v)%Z && (v <=? max)%Z then Some v else None.

Definition from_str (is_signed_ty : bool) (min max : Z) (src : string)
  : option Z :=
  match src with
  | EmptyString => None
  | String c rest =>
    let plus := Ascii.eqb c "+"%char in
    let minus := Ascii.eqb c "-"%char in
    if (plus || minus) && String.eqb rest EmptyString then None
    else if plus then
      match dec_digits 0 rest with
      | Some v => in_range min max v
      | None => None
      end
    else if minus && is_signed_ty then
      match dec_digits 0 rest with
      | Some v => in_range min max (- v)
      | None => None
      end
    else
      match dec_digits 0 src with
      | Some v => in_range min max v
      | None => None
      end
  end.

Definition parse_i32 := from_str true (- 2 ^ 31) (2 ^ 31 - 1).
(** [usize] and [isize] on a 64-bit target *)
Definition parse_usize := from_str false 0 (2 ^ 64 - 1).
Definition parse_isize := from_str true (- 2 ^ 63) (2 ^ 63 - 1).

(** ** [str::split_whitespace]

    [split(char::is_whitespace).filter(|s| !s.is_empty())].  A [&str] is UTF-8,
    so the multi-byte white-space characters of Unicode are matched by their
    encodings; they start with a lead byte ([C2], [E1], [E2], [E3]), which
    never occurs inside another character. *)

Definition ws1 (c : ascii) : bool :=
  match nat_of_ascii c with
  | 9 | 10 | 11 | 12 | 13 | 32 => true
  | _ => false
  end.

(** U+0085 and U+00A0 *)
Definition ws2 (c1 c2 : ascii) : bool :=
  Nat.eqb (nat_of_ascii c1) 194 &&
  (Nat.eqb (nat_of_ascii c2) 133 || Nat.eqb (nat_of_ascii c2) 160).

(** U+1680, U+2000..U+200A, U+2028, U+2029, U+202F, U+205F, U+3000 *)
Definition ws3 (c1 c2 c3 : ascii) : bool :=
  let a := nat_of_ascii c1 in
  let b := nat_of_ascii c2 in
  let c := nat_of_ascii c3 in
  (Nat.eqb a 225 && Nat.eqb b 154 && Nat.eqb c 128)
  || (Nat.eqb a 226 && Nat.eqb b 128 &&
      ((Nat.leb 128 c && Nat.leb c 138) || Nat.eqb c 168 || Nat.eqb c 169
       || Nat.eqb c 175))
  || (Nat.eqb a 226 && Nat.eqb b 129 && Nat.eqb c 159)
  || (Nat.eqb a 227 && Nat.eqb b 128 && Nat.eqb c 128).

Definition push_front (c : ascii) (pieces : list string) : list string :=
  match pieces with
  | [] => [String c EmptyString]
  | w :: ws => String c w :: ws
  end.

Fixpoint split_ws (s : string) : list string :=
  match s with
  | EmptyString => [EmptyString]
  | String c1 s1 =>
    if ws1 c1 then EmptyString :: split_ws s1 else
    match s1 with
    | EmptyString => push_front c1 (split_ws s1)
    | String c2 s2 =>
      if ws2 c1 c2 then EmptyString :: split_ws s2 else
      match s2 with
      | EmptyString => push_front c1 (split_ws s1)
      | String c3 s3 =>
        if ws3 c1 c2 c3 then EmptyString :: split_ws s3
        else push_front c1 (split_ws s1)
      end
    end
  end.

Definition split_whitespace (s : string) : list string :=
  filter (fun w => negb (String.eqb w EmptyString)) (split_ws s).

(** ** [OsStr::to_str]: [str::from_utf8] on the bytes. *)

Definition in_nat (lo hi : nat) (c : ascii) : bool :=
  Nat.leb lo (nat_of_ascii c) && Nat.leb (nat_of_ascii c) hi.

Definition cont (c : ascii) : bool := in_nat 128 191 c.

Fixpoint utf8_valid (s : string) : bool :=
  match s with
  | EmptyString => true
  | String c1 s1 =>
    let n := nat_of_ascii c1 in
    if Nat.ltb n 128 then utf8_valid s1
    else if Nat.leb 194 n && Nat.leb n 223 then
      match s1 with
      | String c2 s2 => cont c2 && utf8_valid s2
      | _ => false
      end
    else if Nat.leb 224 n && Nat.leb n 239 then
      match s1 with
      | String c2 (String c3 s3) =>
        (if Nat.eqb n 224 then in_nat 160 191 c2
         else if Nat.eqb n 237 then in_nat 128 159 c2 else cont c2)
        && cont c3 && utf8_valid s3
      | _ => false
      end
    else if Nat.leb 240 n && Nat.leb n 244 then
      match s1 with
      | String c2 (String c3 (String c4 s4)) =>
        (if Nat.eqb n 240 then in_nat 144 191 c2
         else if Nat.eqb n 244 then in_nat 128 143 c2 else cont c2)
        && cont c3 && cont c4 && utf8_valid s4
      | _ => false
      end
    else false
  end.

(** ** [std::path::Path] equality on Unix

    [impl PartialEq for Path] compares [components()].  A leading ['/'] is
    [RootDir]; a relative path starting with ["."] followed by ['/'] or the
    end is [CurDir]; the rest is split on ['/'], dropping empty pieces
    (repeated and trailing separators) and ["."] pieces. *)

Inductive Component :=
  | RootDir
  | CurDir
  | ParentDir
  | Normal (s : string).

Definition Component_eq_dec (a b : Component) : {a = b} + {a <> b}.
Proof. decide equality; apply string_dec. Defined.

Definition parse_single_component (s : string) : option Component :=
  if String.eqb s "" then None
  else if String.eqb s "." then None
  else if String.eqb s ".." then Some ParentDir
  else Some (Normal s).

Definition include_root_or_cur_dir (p : string) : list Component :=
  match p with
  | String c rest =>
    if Ascii.eqb c slash then [RootDir]
    else if Ascii.eqb c "."%char then
      match rest with
      | EmptyString => [CurDir]
      | String c2 _ => if Ascii.eqb c2 slash then [CurDir] else []
      end
    else []
  | EmptyString => []
  end.

Definition components (p : string) : list Component :=
  include_root_or_cur_dir p
  ++ List.flat_map (fun s => match parse_single_component s with
                             | Some c => [c] | None => [] end)
       (split_on slash p).

Definition Path_eq (p q : string) : bool :=
  if list_eq_dec Component_eq_dec (components p) (components q)
  then true else false.

(** ** [Iterator::collect::<Result<Vec<_>>>()]: stops at the first [Err]. *)

Fixpoint collect {A} (rs : list (result A)) : result (list A) :=
  match rs with
  | [] => Ok []
  | r :: rs' =>
    let* a := r in
    let* v := collect rs' in
    Ok (a :: v)
  end.

(** ** [str::lines]

    [split_inclusive('\n')], then each piece loses a final ["\n"] and, after
    it, a final ["\r"].  An empty string has no line, and a final ["\n"]
    does not start an empty last line. *)

Definition newline : ascii := "010"%char.
Definition cr : ascii := "013"%char.

Fixpoint split_inclusive_nl (s : string) : list string :=
  match s with
  | EmptyString => []
  | String c rest =>
    if Ascii.eqb c newline then String c EmptyString :: split_inclusive_nl rest
    else push_front c (split_inclusive_nl rest)
  end.

(** [str::strip_suffix(c)] *)
Fixpoint strip_suffix (c : ascii) (s : string) : option string :=
  match s with
  | EmptyString => None
  | String a EmptyString => if Ascii.eqb a c then Some EmptyString else None
  | String a rest => option_map (String a) (strip_suffix c rest)
  end.

Definition strip_line (line : string) : string :=
  match strip_suffix newline line with
  | None => line
  | Some line' =>
    match strip_suffix cr line' with
    | None => line'
    | Some line'' => line''
    end
  end.

Definition lines (s : string) : list string :=
  map strip_line (split_inclusive_nl s).

(** [Read::read_to_string]: the bytes read must be UTF-8. *)
Definition read_to_string (bytes : string) : result string :=
  if utf8_valid bytes then Ok bytes
  else Err (Custom InvalidData "stream did not contain valid UTF-8").

(** ** src/mounts.rs *)

Module Mounts.

Record MountInfo := mk_MountInfo {
  source : string;
  dest : string;
  fstype : string;
  options : list string;
  dump : Z;
  pass : Z
}.

Record MountList := mk_MountList { entries : list MountInfo }.

Definition parse_value := parse_value.

(** The six [parts.next()] calls take the pieces 0..5 of [line.split(' ')];
    pieces after the sixth are never looked at. *)
Definition parse_line (line : string) : result MountInfo :=
  let parts := split_on space line in
  let* source := ok_or (nth_error parts 0) (Custom InvalidData "missing source") in
  let* dest := ok_or (nth_error parts 1) (Custom InvalidData "missing dest") in
  let* fstype := ok_or (nth_error parts 2) (Custom InvalidData "missing type") in
  let* options := ok_or (nth_error parts 3) (Custom InvalidData "missing options") in
  let* dump_s := ok_or (nth_error parts 4) (Custom InvalidData "missing dump") in
  let* dump := ok_or (parse_i32 dump_s)
                 (Custom InvalidData "dump value is not a number") in
  let* pass_s := ok_or (nth_error parts 5) (Custom InvalidData "missing pass") in
  let* pass := ok_or (parse_i32 pass_s)
                 (Custom InvalidData "pass value is not a number") in
  let* source' := parse_value source in
  let* dest' := parse_value dest in
  Ok {| source := source'; dest := dest'; fstype := fstype;
        options := split_on comma options; dump := dump; pass := pass |}.

Definition parse_from (lines : list string) : result MountList :=
  let* v := collect (map parse_line lines) in
  Ok (mk_MountList v).

(** [self.0.iter().find(|mount| mount.dest == path.as_ref())] *)
Definition get_mount_by_dest (self : MountList) (path : string)
  : option MountInfo :=
  find (fun mount => Path_eq mount.(dest) path) self.(entries).

Definition get_mount_by_source (self : MountList) (path : string)
  : option MountInfo :=
  find (fun mount => Path_eq mount.(source) path) self.(entries).

(** [input.len() >= path.len() && &input[..path.len()] == path] on the raw
    bytes of the selected field *)
Definition starts_with (self : MountList) (path : string)
  (func : MountInfo -> string) : list MountInfo :=
  filter (fun mount =>
            let input := func mount in
            Nat.leb (String.length path) (String.length input)
            && String.eqb (substring 0 (String.length path) input) path)
         self.(entries).

Definition source_starts_with (self : MountList) (path : string) :=
  starts_with self path source.

Definition destination_starts_with (self : MountList) (path : string) :=
  starts_with self path dest.

(** [MountList::new]: [open_file] stands for the crate-root [::open] (not
    under src/) followed by reading the bytes of the file; it is a
    parameter, the file-access capability the constructor is given. *)
Definition new (open_file : string -> result string) : result MountList :=
  let* bytes := open_file "/proc/mounts" in
  let* file := read_to_string bytes in
  parse_from (lines file).

End Mounts.

(** ** src/swaps.rs *)

Module Swaps.

Record SwapInfo := mk_SwapInfo {
  source : string;
  kind : string;
  size : Z;
  used : Z;
  priority : Z
}.

Record SwapList := mk_SwapList { entries : list SwapInfo }.

Definition parse_value := parse_value.

(** The inner [fn parse<F: FromStr>]: [to_str] then [F::from_str]. *)
Definition parse (from_str : string -> option Z) (string : string) : result Z :=
  if utf8_valid string then
    ok_or (from_str string) (Custom InvalidData "/proc/swaps contains invalid data")
  else Err (Custom InvalidData "/proc/swaps contains non-UTF8 entry").

(** [next_value!(err)]: the [i]-th [parts.next()], then [parse_value]. *)
Definition next_value (parts : list string) (i : nat) (err : string)
  : result string :=
  let* val := ok_or (nth_error parts i) (Custom Other err) in
  parse_value val.

(** The fields of the struct literal are evaluated in the order written. *)
Definition parse_line (line : string) : result SwapInfo :=
  let parts := split_whitespace line in
  let* source := next_value parts 0 "Missing source" in
  let* kind := next_value parts 1 "Missing kind" in
  let* size_s := next_value parts 2 "Missing size" in
  let* size := parse parse_usize size_s in
  let* used_s := next_value parts 3 "Missing used" in
  let* used := parse parse_usize used_s in
  let* priority_s := next_value parts 4 "Missing priority" in
  let* priority := parse parse_isize priority_s in
  Ok {| source := source; kind := kind; size := size; used := used;
        priority := priority |}.

Definition parse_from (lines : list string) : result SwapList :=
  let* v := collect (map parse_line lines) in
  Ok (mk_SwapList v).

(** [self.0.iter().any(|mount| mount.source == path)] *)
Definition get_swapped (self : SwapList) (path : string) : bool :=
  existsb (fun mount => Path_eq mount.(source) path) self.(entries).

(** [SwapList::new]: as [MountList::new], with the first line (the column
    header) skipped by [.skip(1)]. *)
Definition new (open_file : string -> result string) : result SwapList :=
  let* bytes := open_file "/proc/swaps" in
  let* file := read_to_string bytes in
  parse_from (skipn 1 (lines file)).

End Swaps.

(** ** The sample tables of the test modules *)

Definition tab : string := String (byte 9) EmptyString.

Definition mounts_sample : list string := [
  "sysfs /sys sysfs rw,nosuid,nodev,noexec,relatime 0 0";
  "proc /proc proc rw,nosuid,nodev,noexec,relatime 0 0";
  "udev /dev devtmpfs rw,nosuid,relatime,size=16420480k,nr_inodes=4105120,mode=755 0 0";
  "tmpfs /run tmpfs rw,nosuid,noexec,relatime,size=3291052k,mode=755 0 0";
  "/dev/sda2 / ext4 rw,noatime,errors=remount-ro,data=ordered 0 0";
  "fusectl /sys/fs/fuse/connections fusectl rw,relatime 0 0";
  "/dev/sda1 /boot/efi vfat rw,relatime,fmask=0077,dmask=0077,codepage=437,iocharset=iso8859-1,shortname=mixed,errors=remount-ro 0 0";
  "/dev/sda6 /mnt/data ext4 rw,noatime,data=ordered 0 0"].

(** The data line of the swaps test, with its tab-separated columns. *)
Definition swaps_line : string :=
  "/dev/sda5                               partition" ++ tab ++ "8388600"
  ++ tab ++ "0" ++ tab ++ "-2".

Definition unwrap_or {A} (d : A) (r : result A) : A :=
  match r with Ok a => a | Err _ => d end.

Definition mounts_table : Mounts.MountList :=
  unwrap_or (Mounts.mk_MountList []) (Mounts.parse_from mounts_sample).

Definition swaps_table : Swaps.SwapList :=
  unwrap_or (Swaps.mk_SwapList []) (Swaps.parse_from [swaps_line]).

(** ** Spec-side definitions *)

(** The zero-padded three-digit base-8 representation of a byte. *)
Definition octal_repr (b : nat) : string :=
  String (byte (48 + b / 64))
    (String (byte (48 + (b / 8) mod 8))
       (String (byte (48 + b mod 8)) EmptyString)).

(** The two errors of the escape decoder: a truncated escape and a
    non-octal digit. *)
Definition MalformedEscape (e : Error) : Prop :=
  e = truncated \/ e = ParseIntError Other.

(** A backslash followed by [post] starts a malformed escape: fewer than
    three bytes follow, or one of the next three is no octal digit. *)
Definition malformed_after (post : string) : Prop :=
  String.length post < 3 \/
  exists i c, i < 3 /\ String.get i post = Some c /\ octal_digit c = None.

(** ** Decoder lemmas *)

Lemma string_length_ind (P : string -> Prop) :
  (forall s, (forall s', String.length s' < String.length s -> P s') -> P s) ->
  forall s, P s.
Proof.
  intros H s.
  assert (G : forall n s, String.length s <= n -> P s).
  { induction n as [|n IH]; intros s' Hs; apply H; intros s'' Hs''.
    - lia.
    - apply IH; lia. }
  apply (G (String.length s)); lia.
Qed.

Lemma bind_err {A B} (r : result A) (k : A -> result B) e :
  r = Err e -> bind r k = Err e.
Proof. intros ->; reflexivity. Qed.

Lemma octal_digit_backslash : octal_digit backslash = None.
Proof. reflexivity. Qed.

Lemma parse_value_err_malformed (s : string) (e : Error) :
  parse_value s = Err e -> MalformedEscape e.
Proof.
  revert e; induction s as [s IH] using string_length_ind; intros e H.
  unfold MalformedEscape.
  destruct s as [|b rest]; simpl in H; [discriminate|].
  destruct (Ascii.eqb b backslash).
  - destruct rest as [|d1 [|d2 [|d3 rest3]]];
      repeat match type of H with
      | context [octal_digit ?d] => destruct (octal_digit d)
      end; try (inversion H; subst; auto; fail).
    destruct (parse_value rest3) as [r|e'] eqn:E; simpl in H; [discriminate|].
    inversion H; subst. apply (IH rest3); [simpl; lia | exact E].
  - destruct (parse_value rest) as [r|e'] eqn:E; simpl in H; [discriminate|].
    inversion H; subst. apply (IH rest); [simpl; lia | exact E].
Qed.

Lemma parse_value_no_backslash (s : string) :
  (forall n, String.get n s <> Some backslash) -> parse_value s = Ok s.
Proof.
  induction s as [|b rest IH]; intros H; [reflexivity|].
  simpl. destruct (Ascii.eqb b backslash) eqn:Eb.
  - apply Ascii.eqb_eq in Eb. subst. exfalso. apply (H 0). reflexivity.
  - rewrite IH; [reflexivity|]. intros n. apply (H (S n)).
Qed.

Lemma parse_value_fails_at (pre post : string) :
  malformed_after post ->
  exists e, parse_value (pre ++ String backslash post) = Err e.
Proof.
  intros Hm. revert pre.
  induction pre as [pre IH] using string_length_ind.
  destruct pre as [|c pre'].
  - simpl. rewrite ?Ascii.eqb_refl.
    destruct Hm as [Hl | (i & c & Hi & Hg & Hc)].
    + destruct post as [|d1 [|d2 [|d3 p3]]]; simpl in Hl; try lia;
        repeat match goal with
        | |- context [octal_digit ?d] => destruct (octal_digit d)
        end; eauto.
    + destruct post as [|d1 [|d2 [|d3 p3]]];
        destruct i as [|[|[|i]]]; simpl in Hg; try discriminate; try lia;
        inversion Hg; subst;
        repeat match goal with
        | H : octal_digit ?d = None |- context [octal_digit ?d] => rewrite H
        | |- context [octal_digit ?d] => destruct (octal_digit d)
        end; eauto.
  - simpl. destruct (Ascii.eqb c backslash).
    + destruct pre' as [|d1 [|d2 [|d3 p3]]]; simpl;
        rewrite ?octal_digit_backslash;
        repeat match goal with
        | |- context [octal_digit ?d] => destruct (octal_digit d)
        end; eauto.
      destruct (IH p3) as [e He]; [simpl; lia|].
      rewrite He. exists e; reflexivity.
    + destruct (IH pre') as [e He]; [simpl; lia|].
      rewrite He. exists e; reflexivity.
Qed.

Lemma octal_digit_byte (v : nat) : v < 8 -> octal_digit (byte (48 + v)) = Some v.
Proof.
  intros Hv.
  do 8 (destruct v as [|v]; [reflexivity|]). lia.
Qed.

Open Scope list_scope.

(** ** [collect] over a [map]: the first error, or every value *)

Section Collect.
Variables (A B : Type) (f : A -> result B).

Lemma collect_map_ok (l : list A) (v : list B) :
  collect (map f l) = Ok v <-> Forall2 (fun x y => f x = Ok y) l v.
Proof.
  revert v; induction l as [|x l IH]; intros v; simpl.
  - split.
    + intros H; inversion H; constructor.
    + intros H; inversion H; reflexivity.
  - destruct (f x) as [y|e] eqn:Ef; simpl.
    + destruct (collect (map f l)) as [w|e] eqn:Ec; simpl.
      * split.
        -- intros H; inversion H; subst. constructor; [exact Ef|].
           apply IH; reflexivity.
        -- intros H; inversion H as [|x' y' l' v' Hxy Hrest]; subst.
           rewrite Ef in Hxy; inversion Hxy; subst.
           apply IH in Hrest; inversion Hrest; subst; reflexivity.
      * split; [discriminate|].
        intros H; inversion H as [|x' y' l' v' Hxy Hrest]; subst.
        apply IH in Hrest; discriminate.
    + split; [discriminate|].
      intros H; inversion H as [|x' y' l' v' Hxy Hrest]; subst.
      rewrite Ef in Hxy; discriminate.
Qed.

Lemma collect_map_err (l : list A) (e : Error) :
  collect (map f l) = Err e <->
  exists pre x post, l = pre ++ x :: post
                     /\ Forall (fun x => is_ok (f x) = true) pre
                     /\ f x = Err e.
Proof.
  induction l as [|x l IH]; simpl.
  - split; [discriminate|].
    intros (pre & y & post & Hl & _); destruct pre; discriminate.
  - destruct (f x) as [y|e'] eqn:Ef; simpl.
    + destruct (collect (map f l)) as [w|e'] eqn:Ec; simpl.
      * split; [discriminate|].
        intros (pre & z & post & Hl & Hpre & Hz).
        destruct pre as [|p pre]; simpl in Hl; inversion Hl; subst.
        -- congruence.
        -- assert (Hc : Ok w = Err e)
             by (apply IH; inversion Hpre; eauto 7).
           discriminate.
      * split.
        -- intros H; inversion H; subst.
           destruct (proj1 IH eq_refl) as (pre & z & post & Hl & Hpre & Hz).
           exists (x :: pre), z, post. subst. split; [reflexivity|].
           split; [constructor; [rewrite Ef; reflexivity | exact Hpre] | exact Hz].
        -- intros (pre & z & post & Hl & Hpre & Hz).
           destruct pre as [|p pre]; simpl in Hl; inversion Hl; subst.
           ++ congruence.
           ++ assert (Hc : Err e' = Err e)
                by (apply IH; inversion Hpre; eauto 7).
              exact Hc.
    + split.
      * intros H; inversion H; subst. exists [], x, l. auto.
      * intros (pre & z & post & Hl & Hpre & Hz).
        destruct pre as [|p pre]; simpl in Hl; inversion Hl; subst.
        -- congruence.
        -- inversion Hpre as [|? ? Hp _]; subst. rewrite Ef in Hp. discriminate.
Qed.

End Collect.

(** ** C1: all-or-nothing table construction *)

(** C1: for every sequence of lines, [parse_from] (of both tables) returns a
    table exactly when every line parses, and then the table holds the parsed
    records in input order; it returns an error exactly when some line fails,
    and then it is the error of the first failing line, every earlier line
    having parsed.  The result type holds either a table or an error, never
    both, so no partial table exists. *)
Theorem parse_from_all_or_nothing (lines : list string) :
  (forall t, Mounts.parse_from lines = Ok t <->
             Forall2 (fun l m => Mounts.parse_line l = Ok m) lines
                     (Mounts.entries t)) /\
  (forall e, Mounts.parse_from lines = Err e <->
             exists pre l post, lines = pre ++ l :: post
               /\ Forall (fun l => is_ok (Mounts.parse_line l) = true) pre
               /\ Mounts.parse_line l = Err e) /\
  (forall t, Swaps.parse_from lines = Ok t <->
             Forall2 (fun l s => Swaps.parse_line l = Ok s) lines
                     (Swaps.entries t)) /\
  (forall e, Swaps.parse_from lines = Err e <->
             exists pre l post, lines = pre ++ l :: post
               /\ Forall (fun l => is_ok (Swaps.parse_line l) = true) pre
               /\ Swaps.parse_line l = Err e).
Proof.
  unfold Mounts.parse_from, Swaps.parse_from.
  split; [|split; [|split]].
  - intros [v]; simpl. rewrite <- collect_map_ok.
    destruct (collect (map Mounts.parse_line lines)); simpl;
      split; intros H; inversion H; reflexivity.
  - intros e. rewrite <- collect_map_err.
    destruct (collect (map Mounts.parse_line lines)); simpl;
      split; intros H; inversion H; reflexivity.
  - intros [v]; simpl. rewrite <- collect_map_ok.
    destruct (collect (map Swaps.parse_line lines)); simpl;
      split; intros H; inversion H; reflexivity.
  - intros e. rewrite <- collect_map_err.
    destruct (collect (map Swaps.parse_line lines)); simpl;
      split; intros H; inversion H; reflexivity.
Qed.

(** ** C3: octal escapes of every byte decode to that byte *)

(** C3: for every byte [b] in 0..255, decoding a backslash followed by the
    zero-padded three-digit octal representation of [b] yields exactly the
    one byte [b]. *)
Theorem octal_escape_roundtrip (b : nat) (Hb : b < 256) :
  parse_value (String backslash (octal_repr b)) = Ok (String (byte b) EmptyString).
Proof.
  do 256 (destruct b as [|b]; [vm_compute; reflexivity|]). lia.
Qed.

Lemma octal_escape_roundtrip_witness :
  255 < 256 /\ parse_value (String backslash (octal_repr 255))
               = Ok (String (byte 255) EmptyString).
Proof.
  split; [lia | apply (octal_escape_roundtrip 255); lia].
Defined.

(** ** C4: malformed escapes fail, fields without backslash never do *)

(** C4: a backslash followed by fewer than three bytes, or by a non-octal
    byte among the next three, makes the decoder fail, whatever precedes it,
    and every failure of the decoder is a malformed-escape error (truncated
    code or non-octal digit); a field without backslash decodes to itself. *)
Theorem escape_decoder_failures :
  (forall pre post, malformed_after post ->
     exists e, parse_value (pre ++ String backslash post)%string = Err e
               /\ MalformedEscape e) /\
  (forall s e, parse_value s = Err e -> MalformedEscape e) /\
  (forall s, (forall n, String.get n s <> Some backslash) -> parse_value s = Ok s).
Proof.
  split; [|split].
  - intros pre post Hm.
    destruct (parse_value_fails_at pre post Hm) as [e He].
    exists e. split; [exact He | exact (parse_value_err_malformed _ _ He)].
  - exact parse_value_err_malformed.
  - exact parse_value_no_backslash.
Qed.

(** ** C9: escape values above 255 wrap *)

(** C9: a backslash followed by any three octal digits [v1 v2 v3] always
    decodes, to the byte [(v1*64 + v2*8 + v3) mod 256], followed by the
    decoding of the rest; [\777] gives byte 255 and [\400] byte 0. *)
Theorem escape_value_wraps (v1 v2 v3 : nat) (rest : string)
  (H1 : v1 < 8) (H2 : v2 < 8) (H3 : v3 < 8) :
  parse_value (String backslash (String (byte (48 + v1))
                 (String (byte (48 + v2)) (String (byte (48 + v3)) rest))))
  = (let* r := parse_value rest in
     Ok (String (byte ((v1 * 64 + v2 * 8 + v3) mod 256)) r)) /\
  parse_value "\777" = Ok (String (byte 255) EmptyString) /\
  parse_value "\400" = Ok (String (byte 0) EmptyString).
Proof.
  split; [|split; reflexivity].
  cbn [parse_value]. rewrite Ascii.eqb_refl.
  rewrite !octal_digit_byte by assumption.
  replace (((0 * 8 + v1) * 8 + v2) * 8 + v3) with (v1 * 64 + v2 * 8 + v3) by lia.
  reflexivity.
Qed.

Lemma escape_value_wraps_witness :
  7 < 8 /\ parse_value (String backslash (String (byte (48 + 7))
                 (String (byte (48 + 7)) (String (byte (48 + 7)) ""))))
  = (let* r := parse_value "" in
     Ok (String (byte ((7 * 64 + 7 * 8 + 7) mod 256)) r)).
Proof.
  split; [lia|].
  apply (escape_value_wraps 7 7 7 ""); lia.
Defined.

(** ** Path lemmas *)

Lemma split_on_nonempty (sep : ascii) (s : string) : split_on sep s <> [].
Proof.
  destruct s as [|c s]; simpl; [discriminate|].
  destruct (Ascii.eqb c sep); [discriminate|].
  destruct (split_on sep s); discriminate.
Qed.

Lemma split_on_app (sep : ascii) (p q : string) :
  split_on sep (p ++ String sep q)%string = split_on sep p ++ split_on sep q.
Proof.
  induction p as [|c p IH]; simpl.
  - rewrite Ascii.eqb_refl. reflexivity.
  - rewrite IH. destruct (Ascii.eqb c sep); [reflexivity|].
    pose proof (split_on_nonempty sep p) as Hne.
    destruct (split_on sep p); [contradiction|reflexivity].
Qed.

Definition normal_components (l : list string) : list Component :=
  List.flat_map (fun s => match parse_single_component s with
                          | Some c => [c] | None => [] end) l.

Lemma components_eq (p : string) :
  components p = include_root_or_cur_dir p ++ normal_components (split_on slash p).
Proof. reflexivity. Qed.

Lemma components_trailing (c : ascii) (p : string) :
  components (String c p ++ "/")%string = components (String c p).
Proof.
  rewrite !components_eq.
  change "/"%string with (String slash EmptyString).
  rewrite split_on_app. unfold normal_components.
  rewrite flat_map_app. simpl. rewrite app_nil_r. f_equal.
  simpl. destruct (Ascii.eqb c slash); [reflexivity|].
  destruct (Ascii.eqb c "."%char); [|reflexivity].
  destruct p; reflexivity.
Qed.

Lemma components_repeated (p q : string) :
  components (p ++ "//" ++ q)%string = components (p ++ "/" ++ q)%string.
Proof.
  rewrite !components_eq.
  change ("//" ++ q)%string with (String slash (String slash q)).
  change ("/" ++ q)%string with (String slash q).
  rewrite !split_on_app.
  assert (Hs : split_on slash (String slash q) = EmptyString :: split_on slash q)
    by reflexivity.
  rewrite Hs. unfold normal_components. rewrite !flat_map_app.
  f_equal.
  destruct p as [|c p]; [reflexivity|]. simpl.
  destruct (Ascii.eqb c slash); [reflexivity|].
  destruct (Ascii.eqb c "."%char); [|reflexivity].
  destruct p; reflexivity.
Qed.

Lemma Path_eq_true (p q : string) :
  Path_eq p q = true <-> components p = components q.
Proof.
  unfold Path_eq. destruct (list_eq_dec Component_eq_dec _ _); split; congruence.
Qed.

Lemma Path_eq_compat (x q q' : string) :
  components q = components q' -> Path_eq x q = Path_eq x q'.
Proof.
  intros H. unfold Path_eq. rewrite H. reflexivity.
Qed.

Lemma find_ext {A} (f g : A -> bool) (l : list A) :
  (forall x, f x = g x) -> find f l = find g l.
Proof.
  intros H; induction l as [|x l IH]; simpl; [reflexivity|].
  rewrite H, IH. reflexivity.
Qed.

Lemma existsb_ext' {A} (f g : A -> bool) (l : list A) :
  (forall x, f x = g x) -> existsb f l = existsb g l.
Proof.
  intros H; induction l as [|x l IH]; simpl; [reflexivity|].
  rewrite H, IH. reflexivity.
Qed.

Lemma find_first {A} (f : A -> bool) (l : list A) (x : A) :
  find f l = Some x <->
  exists pre post, l = pre ++ x :: post /\ f x = true
                   /\ Forall (fun y => f y = false) pre.
Proof.
  induction l as [|y l IH]; simpl.
  - split; [discriminate|]. intros (pre & post & Hl & _). destruct pre; discriminate.
  - destruct (f y) eqn:Ey.
    + split.
      * intros H; inversion H; subst. exists [], l. auto.
      * intros (pre & post & Hl & Hx & Hpre).
        destruct pre as [|z pre]; simpl in Hl; inversion Hl; subst; [reflexivity|].
        inversion Hpre; congruence.
    + rewrite IH. split.
      * intros (pre & post & Hl & Hx & Hpre). exists (y :: pre), post.
        subst. auto.
      * intros (pre & post & Hl & Hx & Hpre).
        destruct pre as [|z pre]; simpl in Hl; inversion Hl; subst; [congruence|].
        inversion Hpre; eauto.
Qed.

Lemma find_none {A} (f : A -> bool) (l : list A) :
  find f l = None <-> Forall (fun y => f y = false) l.
Proof.
  induction l as [|y l IH]; simpl.
  - split; auto.
  - destruct (f y) eqn:Ey.
    + split; [discriminate|]. intros H; inversion H; congruence.
    + rewrite IH. split; [auto|]. intros H; inversion H; auto.
Qed.

Lemma Path_eq_false (p q : string) :
  Path_eq p q = false <-> components p <> components q.
Proof.
  rewrite <- Path_eq_true. destruct (Path_eq p q); intuition congruence.
Qed.

Lemma starts_with_prefix (p s : string) :
  Nat.leb (String.length p) (String.length s)
  && String.eqb (substring 0 (String.length p) s) p = String.prefix p s.
Proof.
  revert s; induction p as [|x p IH]; intros s.
  - destruct s; reflexivity.
  - destruct s as [|y s]; [reflexivity|].
    simpl. rewrite <- IH.
    destruct (ascii_dec x y) as [->|Hne].
    + rewrite Ascii.eqb_refl. reflexivity.
    + destruct (Ascii.eqb y x) eqn:E.
      * apply Ascii.eqb_eq in E. congruence.
      * destruct (Nat.leb _ _); reflexivity.
Qed.

(** ** C5: first-match lookups *)

(** C5 (counterexample): no entry of the sample table has the destination
    ["/run/"] byte for byte, yet the lookup by destination finds one. *)
Lemma get_mount_by_dest_not_exact :
  Forall (fun m => Mounts.dest m <> "/run/") (Mounts.entries mounts_table) /\
  Mounts.get_mount_by_dest mounts_table "/run/" <> None.
Proof.
  split.
  - vm_compute. repeat (constructor; [discriminate|]). constructor.
  - vm_compute. discriminate.
Qed.

(** C5 (amended): the lookups by destination and by source return the first
    entry in file order whose field equals the query as a [Path], that is
    with the same path components, and none when no entry does. *)
Theorem get_mount_first_match (ml : Mounts.MountList) (path : string)
  (m : Mounts.MountInfo) :
  (Mounts.get_mount_by_dest ml path = Some m <->
   exists pre post, Mounts.entries ml = pre ++ m :: post
     /\ components (Mounts.dest m) = components path
     /\ Forall (fun m' => components (Mounts.dest m') <> components path) pre) /\
  (Mounts.get_mount_by_dest ml path = None <->
   Forall (fun m' => components (Mounts.dest m') <> components path)
          (Mounts.entries ml)) /\
  (Mounts.get_mount_by_source ml path = Some m <->
   exists pre post, Mounts.entries ml = pre ++ m :: post
     /\ components (Mounts.source m) = components path
     /\ Forall (fun m' => components (Mounts.source m') <> components path) pre) /\
  (Mounts.get_mount_by_source ml path = None <->
   Forall (fun m' => components (Mounts.source m') <> components path)
          (Mounts.entries ml)).
Proof.
  unfold Mounts.get_mount_by_dest, Mounts.get_mount_by_source.
  split; [|split; [|split]].
  - rewrite find_first. setoid_rewrite Path_eq_true.
    setoid_rewrite Forall_forall. setoid_rewrite Path_eq_false. reflexivity.
  - rewrite find_none. rewrite !Forall_forall.
    setoid_rewrite Path_eq_false. reflexivity.
  - rewrite find_first. setoid_rewrite Path_eq_true.
    setoid_rewrite Forall_forall. setoid_rewrite Path_eq_false. reflexivity.
  - rewrite find_none. rewrite !Forall_forall.
    setoid_rewrite Path_eq_false. reflexivity.
Qed.

(** ** C6: byte-prefix queries *)

(** C6: the prefix queries keep, in file order, exactly the entries whose
    field starts with the bytes of the query ([String.prefix]); ["/a"] selects
    a destination ["/ab"]; on the sample table the prefix ["/"] selects the
    destinations in file order. *)
Theorem prefix_queries (ml : Mounts.MountList) (path : string) :
  Mounts.destination_starts_with ml path
    = filter (fun m => String.prefix path (Mounts.dest m)) (Mounts.entries ml) /\
  Mounts.source_starts_with ml path
    = filter (fun m => String.prefix path (Mounts.source m)) (Mounts.entries ml) /\
  map Mounts.dest
      (Mounts.destination_starts_with
         (Mounts.mk_MountList
            [Mounts.mk_MountInfo "x" "/ab" "ext4" ["rw"] 0 0]) "/a")
    = ["/ab"] /\
  map Mounts.dest (Mounts.destination_starts_with mounts_table "/")
    = ["/sys"; "/proc"; "/dev"; "/run"; "/"; "/sys/fs/fuse/connections";
       "/boot/efi"; "/mnt/data"].
Proof.
  split; [|split; [|split]].
  - unfold Mounts.destination_starts_with, Mounts.starts_with.
    apply filter_ext. intros m. apply starts_with_prefix.
  - unfold Mounts.source_starts_with, Mounts.starts_with.
    apply filter_ext. intros m. apply starts_with_prefix.
  - vm_compute. reflexivity.
  - vm_compute. reflexivity.
Qed.

(** ** C7: the swaps sample *)

Definition swaps_claim_line : string := "/dev/sda5 partition 8388600 0 -2".

Definition swaps_claim_table : Swaps.SwapList :=
  unwrap_or (Swaps.mk_SwapList []) (Swaps.parse_from [swaps_claim_line]).

(** C7 (counterexample): on the parsed sample, [get_swapped "/dev/sda5/"]
    is true although no entry's source is ["/dev/sda5/"] byte for byte. *)
Lemma get_swapped_not_exact :
  Forall (fun s => Swaps.source s <> "/dev/sda5/") (Swaps.entries swaps_claim_table) /\
  Swaps.get_swapped swaps_claim_table "/dev/sda5/" = true.
Proof.
  split.
  - vm_compute. constructor; [discriminate | constructor].
  - vm_compute. reflexivity.
Qed.

(** C7 (amended): the line ["/dev/sda5 partition 8388600 0 -2"] (and the
    tab-separated line of the test) parses to the one entry
    [/dev/sda5, partition, 8388600, 0, -2]; on that table [get_swapped] is
    true for ["/dev/sda5"] and false for ["/dev/sda1"]; and for every table,
    [get_swapped] is true exactly when some entry's source has the same path
    components as the query. *)
Theorem swaps_sample (sl : Swaps.SwapList) (path : string) :
  Swaps.parse_from [swaps_claim_line]
    = Ok (Swaps.mk_SwapList
            [Swaps.mk_SwapInfo "/dev/sda5" "partition" 8388600 0 (-2)]) /\
  Swaps.parse_from [swaps_line]
    = Ok (Swaps.mk_SwapList
            [Swaps.mk_SwapInfo "/dev/sda5" "partition" 8388600 0 (-2)]) /\
  Swaps.get_swapped swaps_claim_table "/dev/sda5" = true /\
  Swaps.get_swapped swaps_claim_table "/dev/sda1" = false /\
  (Swaps.get_swapped sl path = true <->
   Exists (fun s => components (Swaps.source s) = components path)
          (Swaps.entries sl)).
Proof.
  split; [vm_compute; reflexivity|].
  split; [vm_compute; reflexivity|].
  split; [vm_compute; reflexivity|].
  split; [vm_compute; reflexivity|].
  unfold Swaps.get_swapped. rewrite existsb_exists, Exists_exists.
  setoid_rewrite Path_eq_true. reflexivity.
Qed.

(** ** C10: exact-match queries compare path components *)

(** C10: the lookups by destination and by source and [get_swapped] give
    the same answer for a non-empty query and the query with a trailing
    ['/'], and for a query with a doubled ['/'] and the one with a single
    ['/']; in particular ["/run/"] finds the entry of ["/run"]. *)
Theorem exact_match_by_components (ml : Mounts.MountList)
  (sl : Swaps.SwapList) (c : ascii) (p q : string) :
  Mounts.get_mount_by_dest ml (String c p ++ "/")
    = Mounts.get_mount_by_dest ml (String c p) /\
  Mounts.get_mount_by_source ml (String c p ++ "/")
    = Mounts.get_mount_by_source ml (String c p) /\
  Swaps.get_swapped sl (String c p ++ "/") = Swaps.get_swapped sl (String c p) /\
  Mounts.get_mount_by_dest ml (p ++ "//" ++ q)
    = Mounts.get_mount_by_dest ml (p ++ "/" ++ q) /\
  Mounts.get_mount_by_source ml (p ++ "//" ++ q)
    = Mounts.get_mount_by_source ml (p ++ "/" ++ q) /\
  Swaps.get_swapped sl (p ++ "//" ++ q) = Swaps.get_swapped sl (p ++ "/" ++ q) /\
  option_map Mounts.dest (Mounts.get_mount_by_dest mounts_table "/run/")
    = Some "/run".
Proof.
  unfold Mounts.get_mount_by_dest, Mounts.get_mount_by_source, Swaps.get_swapped.
  do 6 (split; [apply find_ext || apply existsb_ext'; intros x;
                apply Path_eq_compat;
                first [apply components_trailing | apply components_repeated]|]).
  vm_compute. reflexivity.
Qed.

(** ** Line parser lemmas *)

Definition mount_field_msgs : list string :=
  ["missing source"; "missing dest"; "missing type"; "missing options";
   "missing dump"; "missing pass"].

Definition swap_field_msgs : list string :=
  ["Missing source"; "Missing kind"; "Missing size"; "Missing used";
   "Missing priority"].

(** Field [i] of a swap line decodes and, for the numeric fields [2..4],
    converts. *)
Definition swap_field_ok (i : nat) (f : string) : bool :=
  match parse_value f with
  | Err _ => false
  | Ok t =>
    match i with
    | 2 | 3 => is_ok (Swaps.parse parse_usize t)
    | 4 => is_ok (Swaps.parse parse_isize t)
    | _ => true
    end
  end.

(** The error a swap field gives when it is read: its decoding error, or for
    size, used and priority the error of the conversion of the decoded text. *)
Definition swap_field_error (i : nat) (f : string) : option Error :=
  match parse_value f with
  | Err e => Some e
  | Ok t =>
    match i with
    | 2 | 3 =>
      match Swaps.parse parse_usize t with Err e => Some e | Ok _ => None end
    | 4 =>
      match Swaps.parse parse_isize t with Err e => Some e | Ok _ => None end
    | _ => None
    end
  end.

Ltac bind_cases :=
  repeat match goal with
  | |- context [bind ?r _] =>
      lazymatch r with
      | parse_value _ => destruct r eqn:?; cbn [bind]
      | Swaps.parse _ _ => destruct r eqn:?; cbn [bind]
      | ok_or (parse_i32 _) _ => destruct (parse_i32 _) eqn:?; cbn [bind ok_or]
      end
  end.

Ltac refute_field Hok i :=
  let Hi := fresh "Hi" in
  pose proof (Hok i ltac:(simpl; lia)) as Hi;
  unfold swap_field_ok in Hi; cbn [nth] in Hi;
  repeat match goal with
  | H : ?a = _ |- _ =>
      lazymatch a with
      | parse_value _ => rewrite H in Hi
      | Swaps.parse _ _ => rewrite H in Hi
      end
  end;
  cbn in Hi; discriminate.

Lemma mount_parse_line_parts (line : string) :
  Mounts.parse_line line =
  (fun parts =>
  let* source := ok_or (nth_error parts 0) (Custom InvalidData "missing source") in
  let* dest := ok_or (nth_error parts 1) (Custom InvalidData "missing dest") in
  let* fstype := ok_or (nth_error parts 2) (Custom InvalidData "missing type") in
  let* options := ok_or (nth_error parts 3) (Custom InvalidData "missing options") in
  let* dump_s := ok_or (nth_error parts 4) (Custom InvalidData "missing dump") in
  let* dump := ok_or (parse_i32 dump_s)
                 (Custom InvalidData "dump value is not a number") in
  let* pass_s := ok_or (nth_error parts 5) (Custom InvalidData "missing pass") in
  let* pass := ok_or (parse_i32 pass_s)
                 (Custom InvalidData "pass value is not a number") in
  let* source' := parse_value source in
  let* dest' := parse_value dest in
  Ok {| Mounts.source := source'; Mounts.dest := dest'; Mounts.fstype := fstype;
        Mounts.options := split_on comma options; Mounts.dump := dump;
        Mounts.pass := pass |}) (split_on space line).
Proof. reflexivity. Qed.

Lemma swap_parse_line_parts (line : string) :
  Swaps.parse_line line =
  (fun parts =>
  let* source := Swaps.next_value parts 0 "Missing source" in
  let* kind := Swaps.next_value parts 1 "Missing kind" in
  let* size_s := Swaps.next_value parts 2 "Missing size" in
  let* size := Swaps.parse parse_usize size_s in
  let* used_s := Swaps.next_value parts 3 "Missing used" in
  let* used := Swaps.parse parse_usize used_s in
  let* priority_s := Swaps.next_value parts 4 "Missing priority" in
  let* priority := Swaps.parse parse_isize priority_s in
  Ok {| Swaps.source := source; Swaps.kind := kind; Swaps.size := size;
        Swaps.used := used; Swaps.priority := priority |})
  (split_whitespace line).
Proof. reflexivity. Qed.

Lemma first_false (P : nat -> bool) (i : nat) :
  (exists j, j < i /\ P j = false) ->
  exists j, j < i /\ P j = false /\ (forall k, k < j -> P k = true).
Proof.
  induction i as [|i IH]; intros (j & Hj & Hp); [lia|].
  destruct (existsb (fun k => negb (P k)) (seq 0 i)) eqn:E.
  - apply existsb_exists in E as (k & Hk & Hpk). apply in_seq in Hk.
    destruct IH as (j' & Hj' & Hp' & Hmin);
      [exists k; split; [lia | now destruct (P k)]|].
    exists j'. split; [lia | split; assumption].
  - exists j. split; [exact Hj | split; [exact Hp|]].
    intros k Hk. destruct (P k) eqn:Pk; [reflexivity|].
    assert (Hin : In k (seq 0 i)) by (apply in_seq; lia).
    assert (Hc : existsb (fun k => negb (P k)) (seq 0 i) = true)
      by (apply existsb_exists; exists k; rewrite Pk; split; [exact Hin | reflexivity]).
    rewrite E in Hc. discriminate.
Qed.

Lemma swap_field_ok_error (i : nat) (f : string) :
  swap_field_ok i f = false -> exists e, swap_field_error i f = Some e.
Proof.
  unfold swap_field_ok, swap_field_error.
  destruct (parse_value f) as [t|e]; [|eauto].
  destruct i as [|[|[|[|[|i]]]]]; cbn; try discriminate;
    match goal with
    | |- context [Swaps.parse ?g t] => destruct (Swaps.parse g t)
    end; cbn; try discriminate; eauto.
Qed.

(** A swap line fails with the error of its first field that fails to be
    read, when all the fields before it are read. *)
Lemma swap_line_first_error (line f0 f1 f2 f3 f4 : string) (rest : list string)
  (Hparts : split_whitespace line = [f0; f1; f2; f3; f4] ++ rest)
  (j : nat) (e : Error) :
  j < 5 ->
  (forall k, k < j -> swap_field_ok k (nth k [f0; f1; f2; f3; f4] "") = true) ->
  swap_field_error j (nth j [f0; f1; f2; f3; f4] "") = Some e ->
  Swaps.parse_line line = Err e.
Proof.
  intros Hj Hok He.
  rewrite swap_parse_line_parts, Hparts.
  unfold Swaps.next_value, Swaps.parse_value. cbn [app nth_error ok_or bind].
  unfold swap_field_error in He.
  destruct j as [|[|[|[|[|j]]]]]; try lia; cbn [nth] in He;
    bind_cases;
    repeat match goal with
    | H : ?a = _ |- _ =>
        lazymatch a with
        | parse_value _ => rewrite H in He
        | Swaps.parse _ _ => rewrite H in He
        end
    end;
    cbn in He; try discriminate; try congruence;
    first [ refute_field Hok 0 | refute_field Hok 1 | refute_field Hok 2
          | refute_field Hok 3 ].
Qed.

(** ** C2: field counts *)

(** C2 (counterexample): a mount line with seven space-separated fields
    parses, the seventh field being ignored; a mount line with five fields
    whose fifth is not a number fails with the invalid-dump error, not a
    missing field; a swap line with three fields whose third is not a number
    fails with the conversion error, not a missing field. *)
Lemma mount_line_extra_field :
  length (split_on space "a b c d 0 0 extra") = 7 /\
  Mounts.parse_line "a b c d 0 0 extra"
    = Ok (Mounts.mk_MountInfo "a" "b" "c" ["d"] 0 0) /\
  length (split_on space "a b c d x") = 5 /\
  Mounts.parse_line "a b c d x"
    = Err (Custom InvalidData "dump value is not a number") /\
  length (split_whitespace "/dev/sda5 partition x") = 3 /\
  Swaps.parse_line "/dev/sda5 partition x"
    = Err (Custom InvalidData "/proc/swaps contains invalid data").
Proof. repeat split; vm_compute; reflexivity. Qed.

(** C2 (amended): a mount line parses only when it has at least 6 fields
    split on the single space; fields after the sixth are ignored; with at
    most 4 fields it fails with the missing-field error of the first absent
    field, and with 5 fields with "missing pass" when the fifth (dump) is a
    valid [i32] and with the invalid-dump error otherwise.  A swap line with
    fewer than 5 whitespace-separated fields always fails, and with the
    missing-field error of the first absent field when every present field
    decodes (and, for size and used, converts). *)
Theorem line_field_counts :
  (forall line m, Mounts.parse_line line = Ok m ->
     6 <= length (split_on space line)) /\
  (forall l1 l2 f0 f1 f2 f3 f4 f5 r1 r2,
     split_on space l1 = [f0; f1; f2; f3; f4; f5] ++ r1 ->
     split_on space l2 = [f0; f1; f2; f3; f4; f5] ++ r2 ->
     Mounts.parse_line l1 = Mounts.parse_line l2) /\
  (forall line, length (split_on space line) <= 4 ->
     Mounts.parse_line line
     = Err (Custom InvalidData
              (nth (length (split_on space line)) mount_field_msgs ""))) /\
  (forall line, length (split_on space line) = 5 ->
     Mounts.parse_line line
     = Err (Custom InvalidData
              (match parse_i32 (nth 4 (split_on space line) "") with
               | Some _ => "missing pass"
               | None => "dump value is not a number"
               end))) /\
  (forall line, length (split_whitespace line) < 5 ->
     (exists e, Swaps.parse_line line = Err e) /\
     ((forall i, i < length (split_whitespace line) ->
         swap_field_ok i (nth i (split_whitespace line) "") = true) ->
      Swaps.parse_line line
      = Err (Custom Other
               (nth (length (split_whitespace line)) swap_field_msgs "")))).
Proof.
  split; [|split; [|split; [|split]]].
  - intros line m H. rewrite mount_parse_line_parts in H.
    destruct (split_on space line) as [|f0 [|f1 [|f2 [|f3 [|f4 [|f5 r]]]]]];
      cbn in H |- *; try discriminate; try lia.
    destruct (parse_i32 f4); discriminate.
  - intros l1 l2 f0 f1 f2 f3 f4 f5 r1 r2 H1 H2.
    rewrite !mount_parse_line_parts, H1, H2. reflexivity.
  - intros line H. rewrite mount_parse_line_parts.
    destruct (split_on space line) as [|f0 [|f1 [|f2 [|f3 [|f4 r]]]]];
      cbn in H |- *; try reflexivity; lia.
  - intros line H. rewrite mount_parse_line_parts.
    destruct (split_on space line) as [|f0 [|f1 [|f2 [|f3 [|f4 [|f5 r]]]]]];
      cbn in H |- *; try discriminate.
    destruct (parse_i32 f4); reflexivity.
  - intros line H. rewrite swap_parse_line_parts.
    destruct (split_whitespace line) as [|f0 [|f1 [|f2 [|f3 [|f4 r]]]]];
      cbn in H; try lia; unfold Swaps.next_value, Swaps.parse_value; cbn;
      (split; [bind_cases; eauto|]);
      intros Hok;
      repeat match goal with
      | |- context [bind (parse_value ?f) _] =>
          destruct (parse_value f) eqn:?; cbn [bind]
      | |- context [bind (Swaps.parse ?g ?t) _] =>
          destruct (Swaps.parse g t) eqn:?; cbn [bind]
      end; try reflexivity;
      first [ refute_field Hok 0 | refute_field Hok 1 | refute_field Hok 2
            | refute_field Hok 3 ].
Qed.

(** ** C8: every swap field is decoded *)

(** C8 (counterexample): in ["/dev/sda5 partition x \9 0"] the used field
    [\9] is a malformed escape, but the line fails with the conversion error
    of the earlier size field [x]. *)
Lemma swap_escape_error_masked :
  parse_value "\9" = Err (ParseIntError Other) /\
  exists e, Swaps.parse_line "/dev/sda5 partition x \9 0" = Err e
            /\ ~ MalformedEscape e.
Proof.
  split; [reflexivity|].
  eexists. split; [vm_compute; reflexivity|].
  unfold MalformedEscape, truncated. intros [H|H]; discriminate.
Qed.

(** C8 (amended): for a swap line whose first five whitespace-separated
    fields are [f0..f4], a parsed entry has each field decoded by
    [parse_value] before conversion (size, used and priority are the numbers
    of the decoded texts); a malformed escape in any of the five fields makes
    the line fail, with that decoding error when every earlier field decodes
    and converts, and otherwise with the error of the first earlier field
    that fails to decode or convert; a size written [\070] decodes to ["8"]
    and parses as 8. *)
Theorem swap_fields_decoded (line f0 f1 f2 f3 f4 : string) (rest : list string)
  (Hparts : split_whitespace line = [f0; f1; f2; f3; f4] ++ rest) :
  (forall s, Swaps.parse_line line = Ok s ->
     parse_value f0 = Ok (Swaps.source s) /\
     parse_value f1 = Ok (Swaps.kind s) /\
     (exists t, parse_value f2 = Ok t /\
                Swaps.parse parse_usize t = Ok (Swaps.size s)) /\
     (exists t, parse_value f3 = Ok t /\
                Swaps.parse parse_usize t = Ok (Swaps.used s)) /\
     (exists t, parse_value f4 = Ok t /\
                Swaps.parse parse_isize t = Ok (Swaps.priority s))) /\
  (forall i e, i < 5 -> parse_value (nth i [f0; f1; f2; f3; f4] "") = Err e ->
     exists e', Swaps.parse_line line = Err e') /\
  (forall i e, i < 5 -> parse_value (nth i [f0; f1; f2; f3; f4] "") = Err e ->
     (forall j, j < i -> swap_field_ok j (nth j [f0; f1; f2; f3; f4] "") = true) ->
     Swaps.parse_line line = Err e) /\
  (forall i e, i < 5 -> parse_value (nth i [f0; f1; f2; f3; f4] "") = Err e ->
     (exists j, j < i /\ swap_field_ok j (nth j [f0; f1; f2; f3; f4] "") = false) ->
     exists j e', j < i /\
       (forall k, k < j -> swap_field_ok k (nth k [f0; f1; f2; f3; f4] "") = true) /\
       swap_field_error j (nth j [f0; f1; f2; f3; f4] "") = Some e' /\
       Swaps.parse_line line = Err e') /\
  Swaps.parse_line "/dev/sda5 partition \070 0 -2"
    = Ok (Swaps.mk_SwapInfo "/dev/sda5" "partition" 8 0 (-2)).
Proof.
  assert (Hfirst := swap_line_first_error line f0 f1 f2 f3 f4 rest Hparts).
  rewrite swap_parse_line_parts, Hparts in Hfirst |- *.
  unfold Swaps.next_value, Swaps.parse_value in Hfirst |- *.
  cbn [app nth_error ok_or bind] in Hfirst |- *.
  split; [|split; [|split; [|split]]].
  - intros s H.
    repeat match type of H with
    | context [bind ?r _] =>
        lazymatch r with
        | parse_value _ => destruct r eqn:?; cbn [bind] in H
        | Swaps.parse _ _ => destruct r eqn:?; cbn [bind] in H
        end
    end; try discriminate.
    inversion H; subst.
    cbn [Swaps.source Swaps.kind Swaps.size Swaps.used Swaps.priority].
    repeat split; eauto.
  - intros i e Hi He.
    destruct i as [|[|[|[|[|i]]]]]; cbn [nth] in He; try lia;
      bind_cases; try congruence; eauto.
  - intros i e Hi He Hok.
    destruct i as [|[|[|[|[|i]]]]]; cbn [nth] in He; try lia;
      bind_cases; try congruence;
      first [ refute_field Hok 0 | refute_field Hok 1 | refute_field Hok 2
            | refute_field Hok 3 ].
  - intros i e Hi _ Hbad.
    destruct (first_false (fun j => swap_field_ok j (nth j [f0; f1; f2; f3; f4] ""))
                i Hbad) as (j & Hj & Hjf & Hk).
    destruct (swap_field_ok_error j (nth j [f0; f1; f2; f3; f4] "") Hjf) as [e' He'].
    exists j, e'. split; [lia | split; [exact Hk | split; [exact He'|]]].
    apply (Hfirst j); [lia | exact Hk | exact He'].
  - vm_compute. reflexivity.
Qed.

Definition swaps_escaped_line : string := "/dev/sda5 partition \070 0 -2".

Lemma swap_fields_decoded_witness :
  split_whitespace swaps_escaped_line
    = ["/dev/sda5"; "partition"; "\070"; "0"; "-2"] ++ [] /\
  (forall s, Swaps.parse_line swaps_escaped_line = Ok s ->
     exists t, parse_value "\070" = Ok t /\
               Swaps.parse parse_usize t = Ok (Swaps.size s)).
Proof.
  assert (H : split_whitespace swaps_escaped_line
              = ["/dev/sda5"; "partition"; "\070"; "0"; "-2"] ++ [])
    by (vm_compute; reflexivity).
  split; [exact H|].
  intros s Hs.
  destruct (swap_fields_decoded swaps_escaped_line "/dev/sda5" "partition"
              "\070" "0" "-2" [] H) as [Hok _].
  destruct (Hok s Hs) as (_ & _ & Hsize & _). exact Hsize.
Defined.


(** * Further properties of the parsers *)

(** ** The escape decoder *)

(** Spec-side: the encoder that writes every byte as an octal escape. *)
Fixpoint escape_all (s : string) : string :=
  match s with
  | EmptyString => EmptyString
  | String a rest =>
    (String backslash (octal_repr (nat_of_ascii a)) ++ escape_all rest)%string
  end.

Lemma parse_value_octal_repr (a : ascii) (rest : string) :
  parse_value (String backslash (octal_repr (nat_of_ascii a)) ++ rest)%string
  = (let* r := parse_value rest in Ok (String a r)).
Proof.
  destruct a as [[] [] [] [] [] [] [] []]; reflexivity.
Qed.

Lemma octal_repr_digits (a : ascii) (n : nat) (c : ascii) :
  String.get n (octal_repr (nat_of_ascii a)) = Some c -> octal_digit c <> None.
Proof.
  destruct a as [[] [] [] [] [] [] [] []];
    destruct n as [|[|[|n]]]; cbn; intros H; inversion H; discriminate.
Qed.

Lemma string_get_app (n : nat) (a b : string) :
  String.get n (a ++ b)%string =
  if Nat.ltb n (String.length a) then String.get n a
  else String.get (n - String.length a) b.
Proof.
  revert n; induction a as [|x a IH]; intros n; simpl.
  - rewrite Nat.sub_0_r. reflexivity.
  - destruct n as [|n]; [reflexivity|]. simpl. apply IH.
Qed.

(** X1: a field that decodes on its own decodes the same way at the front of
    a longer field: decoding [a ++ b] gives the decoding of [a] followed by the
    decoding of [b]. *)
Theorem parse_value_app (a b a' : string) (Ha : parse_value a = Ok a') :
  parse_value (a ++ b)%string = (let* b' := parse_value b in Ok (a' ++ b')%string).
Proof.
  revert a' Ha. induction a as [a IH] using string_length_ind; intros a' Ha.
  destruct a as [|c rest].
  - inversion Ha; subst. simpl. destruct (parse_value b); reflexivity.
  - cbn [append]. cbn [parse_value] in Ha |- *.
    destruct (Ascii.eqb c backslash).
    + destruct rest as [|d1 [|d2 [|d3 rest3]]]; cbn [append] in *;
        try discriminate;
        destruct (octal_digit d1); try discriminate;
        destruct (octal_digit d2); try discriminate;
        destruct (octal_digit d3); try discriminate.
      destruct (parse_value rest3) as [r|e] eqn:E; cbn [bind] in Ha; [|discriminate].
      inversion Ha; subst.
      rewrite (IH rest3 ltac:(simpl; lia) r E).
      destruct (parse_value b); reflexivity.
    + destruct (parse_value rest) as [r|e] eqn:E; cbn [bind] in Ha; [|discriminate].
      inversion Ha; subst.
      rewrite (IH rest ltac:(simpl; lia) r E).
      destruct (parse_value b); reflexivity.
Qed.

Lemma parse_value_app_witness :
  parse_value "a\040" = Ok "a " /\
  parse_value ("a\040" ++ "b")%string
  = (let* b' := parse_value "b" in Ok ("a " ++ b')%string).
Proof.
  assert (H : parse_value "a\040" = Ok "a ") by reflexivity.
  split; [exact H | exact (parse_value_app "a\040" "b" "a " H)].
Defined.

(** X2: decoding never lengthens a field: each escape of four bytes gives
    one byte and every other byte is copied. *)
Theorem parse_value_length (s r : string) (H : parse_value s = Ok r) :
  String.length r <= String.length s.
Proof.
  revert r H. induction s as [s IH] using string_length_ind; intros r H.
  destruct s as [|c rest]; cbn [parse_value] in H.
  - inversion H; subst. simpl. lia.
  - destruct (Ascii.eqb c backslash).
    + destruct rest as [|d1 [|d2 [|d3 rest3]]]; try discriminate;
        destruct (octal_digit d1); try discriminate;
        destruct (octal_digit d2); try discriminate;
        destruct (octal_digit d3); try discriminate.
      destruct (parse_value rest3) as [r'|e] eqn:E; cbn [bind] in H; [|discriminate].
      inversion H; subst. specialize (IH rest3 ltac:(simpl; lia) r' E).
      simpl. lia.
    + destruct (parse_value rest) as [r'|e] eqn:E; cbn [bind] in H; [|discriminate].
      inversion H; subst. specialize (IH rest ltac:(simpl; lia) r' E).
      simpl. lia.
Qed.

Lemma parse_value_length_witness :
  parse_value "\040x" = Ok " x" /\ String.length " x" <= String.length "\040x".
Proof.
  assert (H : parse_value "\040x" = Ok " x") by reflexivity.
  split; [exact H | exact (parse_value_length _ _ H)].
Defined.

(** X3: every byte string can be written in the escaped form the decoder
    reads: escaping every byte as a backslash and three octal digits decodes
    back to the string, and the escaped form holds only backslashes and octal
    digits, so it contains no space or other separator. *)
Theorem escape_all_roundtrip (s : string) :
  parse_value (escape_all s) = Ok s /\
  (forall n c, String.get n (escape_all s) = Some c ->
               c = backslash \/ octal_digit c <> None).
Proof.
  induction s as [|a s [IH1 IH2]].
  - split; [reflexivity|]. intros n c H; discriminate.
  - split.
    + cbn [escape_all]. rewrite parse_value_octal_repr, IH1. reflexivity.
    + intros n c H. cbn [escape_all append] in H.
      destruct n as [|n]; cbn [String.get] in H.
      * inversion H; auto.
      * rewrite string_get_app in H.
        destruct (Nat.ltb n (String.length (octal_repr (nat_of_ascii a)))).
        -- right. exact (octal_repr_digits a n c H).
        -- exact (IH2 _ c H).
Qed.

(** ** The mount line parser *)

Lemma split_on_no_sep (sep : ascii) (s : string) :
  (forall n, String.get n s <> Some sep) -> split_on sep s = [s].
Proof.
  induction s as [|c s IH]; intros H; [reflexivity|].
  simpl. destruct (Ascii.eqb c sep) eqn:E.
  - apply Ascii.eqb_eq in E; subst. exfalso. apply (H 0). reflexivity.
  - rewrite IH; [reflexivity|]. intros n. apply (H (S n)).
Qed.

Lemma concat_push (sep : string) (c : ascii) (w : string) (ws : list string) :
  String.concat sep (String c w :: ws) = String c (String.concat sep (w :: ws)).
Proof. destruct ws; reflexivity. Qed.

(** X4: the options field is split at every comma, and joining the options
    with commas gives the field back; conversely a non-empty list of options
    without commas, joined with commas, splits back into that list. *)
Theorem options_roundtrip (field : string) (opts : list string)
  (Hne : opts <> [])
  (Hopts : forall o, In o opts -> forall n, String.get n o <> Some comma) :
  String.concat "," (split_on comma field) = field /\
  split_on comma (String.concat "," opts) = opts.
Proof.
  split.
  - induction field as [|c field IH]; [reflexivity|].
    simpl split_on. destruct (Ascii.eqb c comma) eqn:E.
    + apply Ascii.eqb_eq in E; subst.
      pose proof (split_on_nonempty comma field) as Hn.
      destruct (split_on comma field) as [|w ws] eqn:Es; [contradiction|].
      change (String.concat "," ("" :: w :: ws))
        with ("" ++ "," ++ String.concat "," (w :: ws))%string.
      rewrite IH. reflexivity.
    + pose proof (split_on_nonempty comma field) as Hn.
      destruct (split_on comma field) as [|w ws] eqn:Es; [contradiction|].
      rewrite concat_push, IH. reflexivity.
  - revert Hne Hopts. induction opts as [|o os IH]; intros Hne Hopts;
      [contradiction|].
    destruct os as [|o' os].
    + simpl. apply split_on_no_sep. apply Hopts. left; reflexivity.
    + change (String.concat "," (o :: o' :: os))
        with (o ++ String comma (String.concat "," (o' :: os)))%string.
      rewrite split_on_app, IH.
      * rewrite split_on_no_sep; [reflexivity|]. apply Hopts. left; reflexivity.
      * discriminate.
      * intros x Hx. apply Hopts. right; exact Hx.
Qed.

Lemma options_roundtrip_witness :
  ["rw"; "relatime"] <> [] /\
  split_on comma (String.concat "," ["rw"; "relatime"]) = ["rw"; "relatime"].
Proof.
  assert (Hne : ["rw"; "relatime"] <> []) by discriminate.
  split; [exact Hne|].
  apply (options_roundtrip "" ["rw"; "relatime"] Hne).
  intros o Ho n. unfold comma. simpl in Ho.
  destruct Ho as [<-|[<-|[]]];
    do 9 (destruct n as [|n]; [discriminate|]); discriminate.
Defined.

(** X5: a mount line parses exactly when its first six space-separated
    fields are there, the fifth and sixth are [i32] numbers (dump and pass)
    and the first two decode; the entry holds the decoded source and dest,
    the third field as the file system type without decoding, the fourth
    split at commas as the options, and the two numbers. *)
Theorem mount_parse_line_ok (line : string) (m : Mounts.MountInfo) :
  Mounts.parse_line line = Ok m <->
  exists f0 f1 f2 f3 f4 f5 rest,
    split_on space line = [f0; f1; f2; f3; f4; f5] ++ rest
    /\ parse_value f0 = Ok (Mounts.source m)
    /\ parse_value f1 = Ok (Mounts.dest m)
    /\ Mounts.fstype m = f2
    /\ Mounts.options m = split_on comma f3
    /\ parse_i32 f4 = Some (Mounts.dump m)
    /\ parse_i32 f5 = Some (Mounts.pass m).
Proof.
  rewrite mount_parse_line_parts. split.
  - destruct (split_on space line) as [|f0 [|f1 [|f2 [|f3 [|f4 [|f5 rest]]]]]];
      cbn; try discriminate;
      destruct (parse_i32 f4) eqn:E4; cbn; try discriminate.
    destruct (parse_i32 f5) eqn:E5; cbn; try discriminate.
    destruct (parse_value f0) eqn:E0; cbn; try discriminate.
    destruct (parse_value f1) eqn:E1; cbn; try discriminate.
    intros H; inversion H; subst; cbn.
    exists f0, f1, f2, f3, f4, f5, rest. auto 10.
  - intros (f0 & f1 & f2 & f3 & f4 & f5 & rest & Hs & H0 & H1 & H2 & H3 & H4 & H5).
    rewrite Hs. cbn. rewrite H4, H5. cbn.
    unfold Mounts.parse_value. rewrite H0, H1. cbn.
    destruct m; cbn in *; subst. reflexivity.
Qed.

(** X6: the mount parser decodes source and dest last: it fails with an
    escape error only when the line has its six fields and both numbers
    parse, and the error is that of the source field, or of the dest field
    when the source decodes. *)
Theorem mount_escape_error_last (line : string) (e : Error)
  (H : Mounts.parse_line line = Err e) (He : MalformedEscape e) :
  exists f0 f1 f2 f3 f4 f5 rest,
    split_on space line = [f0; f1; f2; f3; f4; f5] ++ rest
    /\ parse_i32 f4 <> None /\ parse_i32 f5 <> None
    /\ (parse_value f0 = Err e
        \/ (is_ok (parse_value f0) = true /\ parse_value f1 = Err e)).
Proof.
  unfold MalformedEscape, truncated in He.
  rewrite mount_parse_line_parts in H.
  destruct (split_on space line) as [|f0 [|f1 [|f2 [|f3 [|f4 [|f5 rest]]]]]];
    cbn in H;
    try (inversion H; subst; destruct He; discriminate);
    destruct (parse_i32 f4) eqn:E4; cbn in H;
    try (inversion H; subst; destruct He; discriminate).
  destruct (parse_i32 f5) eqn:E5; cbn in H;
    [|inversion H; subst; destruct He; discriminate].
  exists f0, f1, f2, f3, f4, f5, rest.
  split; [reflexivity|]. split; [congruence|]. split; [congruence|].
  unfold Mounts.parse_value in H.
  destruct (parse_value f0) eqn:E0; cbn in H.
  - destruct (parse_value f1) eqn:E1; cbn in H; [discriminate|].
    inversion H; subst. right; auto.
  - inversion H; subst. left; reflexivity.
Qed.

Lemma mount_escape_error_last_witness :
  Mounts.parse_line "/dev/sd\9 /mnt ext4 rw 0 0" = Err (ParseIntError Other) /\
  MalformedEscape (ParseIntError Other) /\
  exists f0 f1 f2 f3 f4 f5 rest,
    split_on space "/dev/sd\9 /mnt ext4 rw 0 0" = [f0; f1; f2; f3; f4; f5] ++ rest
    /\ parse_i32 f4 <> None /\ parse_i32 f5 <> None
    /\ (parse_value f0 = Err (ParseIntError Other)
        \/ (is_ok (parse_value f0) = true /\ parse_value f1 = Err (ParseIntError Other))).
Proof.
  assert (H : Mounts.parse_line "/dev/sd\9 /mnt ext4 rw 0 0" = Err (ParseIntError Other))
    by reflexivity.
  assert (He : MalformedEscape (ParseIntError Other)) by (right; reflexivity).
  split; [exact H|]. split; [exact He|].
  exact (mount_escape_error_last _ _ H He).
Defined.

(** ** Table construction *)

Lemma collect_app {A} (xs ys : list (result A)) :
  collect (xs ++ ys) = (let* a := collect xs in let* b := collect ys in Ok (a ++ b)).
Proof.
  induction xs as [|x xs IH]; simpl.
  - destruct (collect ys); reflexivity.
  - rewrite IH. destruct x as [a|e]; cbn [bind]; [|reflexivity].
    destruct (collect xs); cbn [bind]; [|reflexivity].
    destruct (collect ys); reflexivity.
Qed.

Lemma collect_map_in_err {A B} (f : A -> result B) (l : list A) (x : A) (e0 : Error) :
  In x l -> f x = Err e0 -> exists e, collect (map f l) = Err e.
Proof.
  intros Hin Hx. induction l as [|y l IH]; [destruct Hin|].
  simpl. destruct Hin as [->|Hin].
  - rewrite Hx. exists e0; reflexivity.
  - destruct (f y); cbn [bind]; [|eauto].
    destruct (IH Hin) as [e He]. rewrite He. exists e; reflexivity.
Qed.

(** X7: parsing a concatenation of line sequences is parsing each part in
    turn: the table of [l1 ++ l2] is the table of [l1] followed by the table
    of [l2], and the first error in [l1], else in [l2], is reported. *)
Theorem parse_from_app (l1 l2 : list string) :
  Mounts.parse_from (l1 ++ l2)
  = (let* t1 := Mounts.parse_from l1 in
     let* t2 := Mounts.parse_from l2 in
     Ok (Mounts.mk_MountList (Mounts.entries t1 ++ Mounts.entries t2))) /\
  Swaps.parse_from (l1 ++ l2)
  = (let* t1 := Swaps.parse_from l1 in
     let* t2 := Swaps.parse_from l2 in
     Ok (Swaps.mk_SwapList (Swaps.entries t1 ++ Swaps.entries t2))).
Proof.
  unfold Mounts.parse_from, Swaps.parse_from. rewrite !map_app, !collect_app.
  split.
  - destruct (collect (map Mounts.parse_line l1)); cbn [bind]; [|reflexivity].
    destruct (collect (map Mounts.parse_line l2)); reflexivity.
  - destruct (collect (map Swaps.parse_line l1)); cbn [bind]; [|reflexivity].
    destruct (collect (map Swaps.parse_line l2)); reflexivity.
Qed.

(** X8: a blank line is never skipped: an empty mount line fails with
    "missing dest" and a swap line of only white space with
    "Missing source", so a line sequence containing one yields no table. *)
Theorem blank_line_fails (lines : list string) (blank : string)
  (Hblank : split_whitespace blank = []) :
  Mounts.parse_line "" = Err (Custom InvalidData "missing dest") /\
  Swaps.parse_line blank = Err (Custom Other "Missing source") /\
  (In "" lines -> exists e, Mounts.parse_from lines = Err e) /\
  (In blank lines -> exists e, Swaps.parse_from lines = Err e).
Proof.
  assert (Hs : Swaps.parse_line blank = Err (Custom Other "Missing source")).
  { rewrite swap_parse_line_parts, Hblank. reflexivity. }
  split; [reflexivity|]. split; [exact Hs|]. split.
  - intros Hin. unfold Mounts.parse_from.
    destruct (collect_map_in_err Mounts.parse_line lines "" _ Hin eq_refl) as [e He].
    rewrite He. exists e; reflexivity.
  - intros Hin. unfold Swaps.parse_from.
    destruct (collect_map_in_err Swaps.parse_line lines blank _ Hin Hs) as [e He].
    rewrite He. exists e; reflexivity.
Qed.

Lemma blank_line_fails_witness :
  split_whitespace (tab ++ " ")%string = [] /\
  Swaps.parse_line (tab ++ " ")%string = Err (Custom Other "Missing source").
Proof.
  assert (H : split_whitespace (tab ++ " ")%string = []) by reflexivity.
  split; [exact H|].
  apply (blank_line_fails [] _ H).
Defined.

(** ** Queries *)

Lemma prefix_app_l (p q s : string) :
  String.prefix (p ++ q) s = true -> String.prefix p s = true.
Proof.
  revert s; induction p as [|x p IH]; intros s H; [destruct s; reflexivity|].
  destruct s as [|y s]; [discriminate|].
  simpl in H |- *. destruct (ascii_dec x y); [apply IH; exact H | discriminate].
Qed.

Lemma filter_filter_impl {A} (f g : A -> bool) (l : list A) :
  (forall x, f x = true -> g x = true) -> filter f (filter g l) = filter f l.
Proof.
  intros H; induction l as [|x l IH]; simpl; [reflexivity|].
  destruct (g x) eqn:Eg; simpl.
  - destruct (f x); rewrite IH; reflexivity.
  - destruct (f x) eqn:Ef; [apply H in Ef; congruence|]. exact IH.
Qed.

Lemma filter_true {A} (f : A -> bool) (l : list A) :
  (forall x, f x = true) -> filter f l = l.
Proof.
  intros H; induction l as [|x l IH]; simpl; [reflexivity|]. rewrite H, IH. reflexivity.
Qed.

(** X9: the empty path selects every entry, and a prefix query with a
    longer path [p ++ q] is the query with [p] narrowed again by [p ++ q]
    (for source and for destination). *)
Theorem prefix_queries_compose (ml : Mounts.MountList) (p q : string) :
  Mounts.destination_starts_with ml "" = Mounts.entries ml /\
  Mounts.source_starts_with ml "" = Mounts.entries ml /\
  Mounts.destination_starts_with
    (Mounts.mk_MountList (Mounts.destination_starts_with ml p)) (p ++ q)
  = Mounts.destination_starts_with ml (p ++ q) /\
  Mounts.source_starts_with
    (Mounts.mk_MountList (Mounts.source_starts_with ml p)) (p ++ q)
  = Mounts.source_starts_with ml (p ++ q).
Proof.
  unfold Mounts.destination_starts_with, Mounts.source_starts_with,
    Mounts.starts_with; cbn [Mounts.entries].
  rewrite !(filter_ext _ _ (fun m => starts_with_prefix _ _)).
  split; [|split; [|split]].
  - apply filter_true. intros m. destruct (Mounts.dest m); reflexivity.
  - apply filter_true. intros m. destruct (Mounts.source m); reflexivity.
  - apply filter_filter_impl. intros m. apply prefix_app_l.
  - apply filter_filter_impl. intros m. apply prefix_app_l.
Qed.

Lemma components_cur_dir (p q : string) :
  components (p ++ "/./" ++ q)%string = components (p ++ "/" ++ q)%string.
Proof.
  rewrite !components_eq.
  change ("/./" ++ q)%string with (String slash (String "."%char (String slash q))).
  change ("/" ++ q)%string with (String slash q).
  rewrite !split_on_app.
  assert (Hs : split_on slash (String "."%char (String slash q))
               = "." :: split_on slash q) by reflexivity.
  rewrite Hs. unfold normal_components. rewrite !flat_map_app.
  f_equal.
  destruct p as [|c p]; [reflexivity|]. simpl.
  destruct (Ascii.eqb c slash); [reflexivity|].
  destruct (Ascii.eqb c "."%char); [|reflexivity].
  destruct p; reflexivity.
Qed.

(** X10: the exact-match queries ignore a ["."] component: querying
    [p ++ "/./" ++ q] gives the same answer as [p ++ "/" ++ q] for the
    lookups by destination and by source and for [get_swapped]. *)
Theorem exact_match_cur_dir (ml : Mounts.MountList) (sl : Swaps.SwapList)
  (p q : string) :
  Mounts.get_mount_by_dest ml (p ++ "/./" ++ q)
    = Mounts.get_mount_by_dest ml (p ++ "/" ++ q) /\
  Mounts.get_mount_by_source ml (p ++ "/./" ++ q)
    = Mounts.get_mount_by_source ml (p ++ "/" ++ q) /\
  Swaps.get_swapped sl (p ++ "/./" ++ q) = Swaps.get_swapped sl (p ++ "/" ++ q).
Proof.
  unfold Mounts.get_mount_by_dest, Mounts.get_mount_by_source, Swaps.get_swapped.
  split; [|split]; [apply find_ext | apply find_ext | apply existsb_ext'];
    intros x; apply Path_eq_compat, components_cur_dir.
Qed.

(** ** White space in swap lines *)

Lemma ws1_small (c : ascii) : ws1 c = true -> nat_of_ascii c < 128.
Proof.
  unfold ws1. destruct (nat_of_ascii c) as [|n] eqn:E; [discriminate|].
  do 32 (destruct n as [|n]; [lia|]). destruct n as [|n]; [lia|]. discriminate.
Qed.

Ltac ws_false n :=
  repeat match goal with
  | |- context [Nat.eqb n ?k] =>
      replace (Nat.eqb n k) with false by (symmetry; apply Nat.eqb_neq; lia)
  | |- context [Nat.leb ?k n] =>
      lazymatch k with
      | 128 => replace (Nat.leb k n) with false by (symmetry; apply Nat.leb_gt; lia)
      end
  end;
  repeat rewrite ?andb_false_r, ?andb_false_l, ?orb_false_r, ?orb_false_l;
  reflexivity.

Lemma ws_small_not_multibyte (c x y : ascii) :
  ws1 c = true -> ws2 x c = false /\ ws3 x c y = false /\ ws3 x y c = false.
Proof.
  intros Hc. pose proof (ws1_small c Hc) as Hs.
  unfold ws2, ws3. cbv zeta.
  remember (nat_of_ascii c) as n eqn:En. clear En.
  split; [|split]; ws_false n.
Qed.

Lemma push_front_app (c : ascii) (a b : list string) :
  a <> [] -> push_front c (a ++ b) = push_front c a ++ b.
Proof. destruct a; [contradiction|reflexivity]. Qed.

Lemma split_ws_nonempty (s : string) : split_ws s <> [].
Proof.
  destruct s as [|c1 [|c2 [|c3 s3]]]; simpl;
    repeat match goal with
    | |- context [if ?b then _ else _] => destruct b
    | |- context [push_front ?c ?l] => destruct l; simpl
    end; discriminate.
Qed.

Lemma split_ws_app (s t : string) (c : ascii) (Hc : ws1 c = true) :
  split_ws (s ++ String c t) = split_ws s ++ split_ws t.
Proof.
  induction s as [s IH] using string_length_ind.
  destruct s as [|c1 s1].
  - simpl. rewrite Hc. reflexivity.
  - cbn [append split_ws]. destruct (ws1 c1) eqn:E1.
    + rewrite (IH s1 ltac:(simpl; lia)). reflexivity.
    + destruct s1 as [|c2 s2].
      * cbn [append]. destruct (ws_small_not_multibyte c c1 c Hc) as [H2 _].
        rewrite H2.
        assert (Hct : split_ws (String c t) = EmptyString :: split_ws t)
          by (simpl; rewrite Hc; reflexivity).
        destruct t as [|c3 s3].
        -- rewrite Hct. reflexivity.
        -- destruct (ws_small_not_multibyte c c1 c3 Hc) as [_ [H3 _]].
           rewrite H3, Hct. reflexivity.
      * cbn [append]. destruct (ws2 c1 c2) eqn:E2.
        -- rewrite (IH s2 ltac:(simpl; lia)). reflexivity.
        -- destruct s2 as [|c3 s3].
           ++ cbn [append].
              destruct (ws_small_not_multibyte c c1 c2 Hc) as [_ [_ H3]].
              rewrite H3.
              change (String c2 (String c t)) with (String c2 EmptyString ++ String c t)%string.
              rewrite (IH (String c2 EmptyString) ltac:(simpl; lia)).
              apply push_front_app, split_ws_nonempty.
           ++ cbn [append]. destruct (ws3 c1 c2 c3) eqn:E3.
              ** rewrite (IH s3 ltac:(simpl; lia)). reflexivity.
              ** change (String c2 (String c3 (s3 ++ String c t)))
                   with (String c2 (String c3 s3) ++ String c t)%string.
                 rewrite (IH (String c2 (String c3 s3)) ltac:(simpl; lia)).
                 apply push_front_app, split_ws_nonempty.
Qed.

Lemma split_whitespace_app (s t : string) (c : ascii) (Hc : ws1 c = true) :
  split_whitespace (s ++ String c t) = split_whitespace s ++ split_whitespace t.
Proof.
  unfold split_whitespace. rewrite split_ws_app by exact Hc. apply filter_app.
Qed.

Lemma split_whitespace_ws_cons (c : ascii) (t : string) (Hc : ws1 c = true) :
  split_whitespace (String c t) = split_whitespace t.
Proof.
  exact (split_whitespace_app EmptyString t c Hc).
Qed.

(** X11: in a swap line, white space around and between the fields does not
    matter: a leading or trailing ASCII white-space byte, or a second one
    after a white-space byte, leaves the parse unchanged. *)
Theorem swap_line_whitespace (s t : string) (c c' : ascii)
  (Hc : ws1 c = true) (Hc' : ws1 c' = true) :
  Swaps.parse_line (String c t) = Swaps.parse_line t /\
  Swaps.parse_line (s ++ String c EmptyString) = Swaps.parse_line s /\
  Swaps.parse_line (s ++ String c (String c' t)) = Swaps.parse_line (s ++ String c t).
Proof.
  rewrite !swap_parse_line_parts.
  rewrite !split_whitespace_app by assumption.
  rewrite (split_whitespace_ws_cons c t Hc), (split_whitespace_ws_cons c' t Hc').
  split; [reflexivity|]. split; [|reflexivity].
  change (split_whitespace EmptyString) with (@nil string).
  rewrite app_nil_r. reflexivity.
Qed.

Lemma swap_line_whitespace_witness :
  ws1 " "%char = true /\ ws1 "009"%char = true /\
  Swaps.parse_line ("/dev/sda5" ++ String " "%char (String "009"%char "file 1 0 -1"))%string
  = Swaps.parse_line ("/dev/sda5" ++ String " "%char "file 1 0 -1")%string.
Proof.
  assert (H1 : ws1 " "%char = true) by reflexivity.
  assert (H2 : ws1 "009"%char = true) by reflexivity.
  split; [exact H1|]. split; [exact H2|].
  apply (swap_line_whitespace "/dev/sda5" "file 1 0 -1" _ _ H1 H2).
Defined.

(** ** Reading the tables from a file *)

(** Spec-side: a file made of the lines [ls], each followed by ["\n"], and
    then [last] (empty, or a last line without a final ["\n"]). *)
Definition file_of_lines (ls : list string) (last : string) : string :=
  fold_right (fun l acc => (l ++ String newline acc)%string) last ls.

Definition no_newline (l : string) : Prop :=
  forall n, String.get n l <> Some newline.

Definition no_final_cr (l : string) : Prop :=
  forall a, l <> (a ++ String cr EmptyString)%string.

Lemma strip_suffix_app (c : ascii) (a : string) :
  strip_suffix c (a ++ String c EmptyString) = Some a.
Proof.
  induction a as [|x a IH].
  - simpl. rewrite Ascii.eqb_refl. reflexivity.
  - cbn [append]. destruct a as [|y a].
    + simpl. rewrite Ascii.eqb_refl. reflexivity.
    + change (strip_suffix c (String x (String y a ++ String c EmptyString)))
        with (option_map (String x) (strip_suffix c (String y a ++ String c EmptyString))).
      rewrite IH. reflexivity.
Qed.

Lemma strip_suffix_some (c : ascii) (s t : string) :
  strip_suffix c s = Some t -> s = (t ++ String c EmptyString)%string.
Proof.
  revert t; induction s as [|x s IH]; intros t H; [discriminate|].
  destruct s as [|y s].
  - simpl in H. destruct (Ascii.eqb x c) eqn:E; [|discriminate].
    apply Ascii.eqb_eq in E; subst. inversion H; reflexivity.
  - change (strip_suffix c (String x (String y s)))
      with (option_map (String x) (strip_suffix c (String y s))) in H.
    destruct (strip_suffix c (String y s)) as [t'|] eqn:E; [|discriminate].
    inversion H; subst. rewrite (IH t' eq_refl). reflexivity.
Qed.

Lemma strip_suffix_none_of (c : ascii) (s : string) :
  (forall a, s <> (a ++ String c EmptyString)%string) -> strip_suffix c s = None.
Proof.
  intros H. destruct (strip_suffix c s) as [t|] eqn:E; [|reflexivity].
  exfalso. apply (H t). exact (strip_suffix_some c s t E).
Qed.

Lemma no_newline_not_suffix (l : string) :
  no_newline l -> forall a, l <> (a ++ String newline EmptyString)%string.
Proof.
  intros H a ->. apply (H (String.length a)).
  clear H. induction a as [|x a IH]; [reflexivity|]. exact IH.
Qed.

Lemma strip_line_terminated (l : string) (Hl : no_final_cr l) :
  strip_line (l ++ String newline EmptyString) = l.
Proof.
  unfold strip_line. rewrite strip_suffix_app.
  rewrite (strip_suffix_none_of cr l Hl). reflexivity.
Qed.

Lemma strip_line_unterminated (l : string) (Hl : no_newline l) : strip_line l = l.
Proof.
  unfold strip_line.
  rewrite (strip_suffix_none_of newline l (no_newline_not_suffix l Hl)).
  reflexivity.
Qed.

Lemma split_inclusive_nl_line (a b : string) (Ha : no_newline a) :
  split_inclusive_nl (a ++ String newline b)
  = (a ++ String newline EmptyString)%string :: split_inclusive_nl b.
Proof.
  induction a as [|x a IH].
  - reflexivity.
  - cbn [append split_inclusive_nl].
    destruct (Ascii.eqb x newline) eqn:E.
    + apply Ascii.eqb_eq in E; subst. exfalso. apply (Ha 0). reflexivity.
    + rewrite IH; [reflexivity|]. intros n. apply (Ha (S n)).
Qed.

Lemma split_inclusive_nl_last (a : string) (Ha : no_newline a) :
  split_inclusive_nl a = if String.eqb a EmptyString then [] else [a].
Proof.
  induction a as [|x a IH]; [reflexivity|].
  cbn [split_inclusive_nl String.eqb].
  destruct (Ascii.eqb x newline) eqn:E.
  - apply Ascii.eqb_eq in E; subst. exfalso. apply (Ha 0). reflexivity.
  - rewrite IH by (intros n; apply (Ha (S n))).
    destruct a; reflexivity.
Qed.

Lemma lines_file_of_lines (ls : list string) (last : string)
  (Hls : Forall (fun l => no_newline l /\ no_final_cr l) ls)
  (Hlast : no_newline last) :
  lines (file_of_lines ls last)
  = ls ++ (if String.eqb last EmptyString then [] else [last]).
Proof.
  unfold lines. induction Hls as [|l ls [Hn Hc] Hls IH]; simpl.
  - rewrite split_inclusive_nl_last by exact Hlast.
    destruct (String.eqb last EmptyString); simpl;
      [reflexivity | rewrite strip_line_unterminated by exact Hlast; reflexivity].
  - rewrite split_inclusive_nl_line by exact Hn. simpl.
    rewrite strip_line_terminated by exact Hc. rewrite IH. reflexivity.
Qed.

Fixpoint has_byte (c : ascii) (s : string) : bool :=
  match s with
  | EmptyString => false
  | String x s' => Ascii.eqb x c || has_byte c s'
  end.

Lemma no_newline_b (l : string) : has_byte newline l = false -> no_newline l.
Proof.
  induction l as [|x l IH]; intros H n; [destruct n; discriminate|].
  simpl in H. apply Bool.orb_false_iff in H as [Hx Hl].
  destruct n as [|n]; simpl.
  - intros E; inversion E; subst. rewrite Ascii.eqb_refl in Hx. discriminate.
  - exact (IH Hl n).
Qed.

Lemma no_final_cr_b (l : string) : strip_suffix cr l = None -> no_final_cr l.
Proof. intros H a ->. rewrite strip_suffix_app in H. discriminate. Qed.

Lemma lines_header (h : string) (ls : list string) (last : string)
  (Hh : no_newline h) :
  lines (file_of_lines (h :: ls) last)
  = strip_line (h ++ String newline EmptyString) :: lines (file_of_lines ls last).
Proof.
  unfold lines. cbn [file_of_lines fold_right].
  rewrite split_inclusive_nl_line by exact Hh. reflexivity.
Qed.

(** X12. [MountList::new] parses the lines of [/proc/mounts]: for a UTF-8
    file made of lines each ended by a newline (and, optionally, a last
    line without one), the result is [parse_from] of exactly those lines,
    in order. A line's final carriage return would be dropped by
    [str::lines], hence the lines here do not end in one. *)
Theorem mounts_new_lines (open_file : string -> result string)
  (ls : list string) (last : string)
  (Hls : Forall (fun l => no_newline l /\ no_final_cr l) ls)
  (Hlast : no_newline last)
  (Hopen : open_file "/proc/mounts"%string = Ok (file_of_lines ls last))
  (Hutf : utf8_valid (file_of_lines ls last) = true) :
  Mounts.new open_file
  = Mounts.parse_from (ls ++ (if String.eqb last EmptyString then [] else [last])).
Proof.
  unfold Mounts.new. rewrite Hopen. cbn [bind]. unfold read_to_string.
  rewrite Hutf. cbn [bind]. rewrite lines_file_of_lines by assumption.
  reflexivity.
Qed.

Definition mounts_new_line : string := "/dev/sda1 / ext4 rw 0 0".

Lemma mounts_new_lines_witness :
  Mounts.new (fun _ => Ok (file_of_lines [mounts_new_line] EmptyString))
  = Mounts.parse_from [mounts_new_line].
Proof.
  apply (mounts_new_lines (fun _ => Ok (file_of_lines [mounts_new_line] EmptyString))
           [mounts_new_line] EmptyString).
  - constructor; [|constructor]. split.
    + apply no_newline_b. vm_compute. reflexivity.
    + apply no_final_cr_b. vm_compute. reflexivity.
  - apply no_newline_b. reflexivity.
  - reflexivity.
  - vm_compute. reflexivity.
Defined.

(** X13. [SwapList::new] skips the first line of [/proc/swaps], its column
    header, whatever it holds, and parses the lines that follow it, in
    order. *)
Theorem swaps_new_skips_header (open_file : string -> result string)
  (header : string) (ls : list string) (last : string)
  (Hh : no_newline header)
  (Hls : Forall (fun l => no_newline l /\ no_final_cr l) ls)
  (Hlast : no_newline last)
  (Hopen : open_file "/proc/swaps"%string = Ok (file_of_lines (header :: ls) last))
  (Hutf : utf8_valid (file_of_lines (header :: ls) last) = true) :
  Swaps.new open_file
  = Swaps.parse_from (ls ++ (if String.eqb last EmptyString then [] else [last])).
Proof.
  unfold Swaps.new. rewrite Hopen. cbn [bind]. unfold read_to_string.
  rewrite Hutf. cbn [bind]. rewrite lines_header by exact Hh.
  cbn [skipn]. rewrite lines_file_of_lines by assumption. reflexivity.
Qed.

Definition swaps_new_header : string :=
  "Filename Type Size Used Priority".

Lemma swaps_new_skips_header_witness :
  Swaps.new (fun _ => Ok (file_of_lines [swaps_new_header; swaps_line] EmptyString))
  = Swaps.parse_from [swaps_line].
Proof.
  apply (swaps_new_skips_header
           (fun _ => Ok (file_of_lines [swaps_new_header; swaps_line] EmptyString))
           swaps_new_header [swaps_line] EmptyString).
  - apply no_newline_b. vm_compute. reflexivity.
  - constructor; [|constructor]. split.
    + apply no_newline_b. vm_compute. reflexivity.
    + apply no_final_cr_b. vm_compute. reflexivity.
  - apply no_newline_b. reflexivity.
  - reflexivity.
  - vm_compute. reflexivity.
Defined.

(** X14. The edge cases of the two constructors: an error opening or
    reading the file is returned as is; a file that is not UTF-8 gives an
    [InvalidData] error; an empty file gives the empty table; and a
    [/proc/swaps] holding only its header line, with no final newline,
    gives the empty swap list too. *)
Theorem new_edge_cases :
  (forall open_file e, open_file "/proc/mounts"%string = Err e ->
     Mounts.new open_file = Err e) /\
  (forall open_file e, open_file "/proc/swaps"%string = Err e ->
     Swaps.new open_file = Err e) /\
  (forall open_file bytes, open_file "/proc/mounts"%string = Ok bytes ->
     utf8_valid bytes = false ->
     Mounts.new open_file
     = Err (Custom InvalidData "stream did not contain valid UTF-8")) /\
  (forall open_file bytes, open_file "/proc/swaps"%string = Ok bytes ->
     utf8_valid bytes = false ->
     Swaps.new open_file
     = Err (Custom InvalidData "stream did not contain valid UTF-8")) /\
  (forall open_file, open_file "/proc/mounts"%string = Ok EmptyString ->
     Mounts.new open_file = Ok (Mounts.mk_MountList [])) /\
  (forall open_file, open_file "/proc/swaps"%string = Ok EmptyString ->
     Swaps.new open_file = Ok (Swaps.mk_SwapList [])) /\
  (forall open_file header, no_newline header -> utf8_valid header = true ->
     open_file "/proc/swaps"%string = Ok header ->
     Swaps.new open_file = Ok (Swaps.mk_SwapList [])).
Proof.
  unfold Mounts.new, Swaps.new, read_to_string.
  repeat split; intros open_file.
  - intros e H. rewrite H. reflexivity.
  - intros e H. rewrite H. reflexivity.
  - intros b H Hu. rewrite H. cbn [bind]. rewrite Hu. reflexivity.
  - intros b H Hu. rewrite H. cbn [bind]. rewrite Hu. reflexivity.
  - intros H. rewrite H. reflexivity.
  - intros H. rewrite H. reflexivity.
  - intros h Hh Hu H. rewrite H. cbn [bind]. rewrite Hu. cbn [bind].
    unfold lines. rewrite (split_inclusive_nl_last h Hh).
    destruct (String.eqb h EmptyString); reflexivity.
Qed.
